(** * funding.py: funding rates of Hyperliquid, Lighter and Paradex

    A shallow embedding of [scripts/funding.py] and the properties of its
    extraction engine: the rate normaliser, base extraction, the platform
    resolver, the tree walker, the aggregator fold, the Paradex
    latest-entry selection, the per-quote market probe and the probe loop
    of [main].

    Conventions of the embedding.
    - A Python [float] is a binary64 primitive float; comparisons are the
      IEEE ones ([<?], [<=?], [=?]), so NaN compares false with everything.
    - A Python [str] is a [string] of ASCII characters; [lower], [upper],
      [isalnum] and [strip] are the ASCII restrictions of the Python
      methods.
    - A decoded JSON document is a [value]; a [dict] keeps its items in
      insertion order, as Python does.
    - [float(str)] and [datetime.fromisoformat(str).timestamp()] are
      parameters of the development: [None] stands for a raised exception.
    - The HTTP client is a state-passing oracle over an abstract [World].
    - Output on stdout (verbose and debug prints) and [time.sleep] are not
      modelled; neither is the interpreter's recursion limit. The pivot
      table is modelled as the list of the lines [print_pivot] prints, with
      the rendering of a cell ([pct]) and the clock as parameters. *)

From Stdlib Require Import ZArith Ascii String Floats DecimalString.
From stdpp Require Import gmap strings list fin_maps sorting.

Set Warnings "-inexact-float,-register-all".

Open Scope string_scope.
Open Scope list_scope.

(** ** Python strings *)

Module Py.

Definition in_range (lo hi : N) (c : ascii) : bool :=
  let n := N_of_ascii c in (N.leb lo n && N.leb n hi)%bool.

Definition isdigit (c : ascii) : bool := in_range 48 57 c.
Definition isupper (c : ascii) : bool := in_range 65 90 c.
Definition islower (c : ascii) : bool := in_range 97 122 c.
Definition isalnum (c : ascii) : bool := isdigit c || isupper c || islower c.

(** [str.isspace] on ASCII: TAB, LF, VT, FF, CR, FS, GS, RS, US and SPACE. *)
Definition isspace (c : ascii) : bool :=
  in_range 9 13 c || in_range 28 32 c.

Definition lower_char (c : ascii) : ascii :=
  if isupper c then ascii_of_N (N_of_ascii c + 32) else c.
Definition upper_char (c : ascii) : ascii :=
  if islower c then ascii_of_N (N_of_ascii c - 32) else c.

Fixpoint map_str (f : ascii -> ascii) (s : string) : string :=
  match s with
  | EmptyString => EmptyString
  | String c r => String (f c) (map_str f r)
  end.

Fixpoint filter_str (f : ascii -> bool) (s : string) : string :=
  match s with
  | EmptyString => EmptyString
  | String c r => if f c then String c (filter_str f r) else filter_str f r
  end.

Definition lower (s : string) : string := map_str lower_char s.
Definition upper (s : string) : string := map_str upper_char s.

(** [s.replace(a, b)] for single characters [a] and [b]. *)
Definition replace_char (a b : ascii) (s : string) : string :=
  map_str (fun c => if Ascii.eqb c a then b else c) s.

(** [s.replace(aa, b)] for the doubled character [aa]: leftmost,
    non-overlapping occurrences. *)
Fixpoint replace_pair (a b : ascii) (s : string) : string :=
  match s with
  | EmptyString => EmptyString
  | String c r =>
      match r with
      | EmptyString => String c EmptyString
      | String c' r' =>
          if (Ascii.eqb c a && Ascii.eqb c' a)%bool
          then String b (replace_pair a b r')
          else String c (replace_pair a b r)
      end
  end.

Fixpoint lstrip (s : string) : string :=
  match s with
  | EmptyString => EmptyString
  | String c r => if isspace c then lstrip r else s
  end.

Fixpoint rstrip (s : string) : string :=
  match s with
  | EmptyString => EmptyString
  | String c r =>
      match rstrip r with
      | EmptyString => if isspace c then EmptyString else String c EmptyString
      | r' => String c r'
      end
  end.

Definition strip (s : string) : string := rstrip (lstrip s).

(** [s.split(sep)] for a one-character separator: never empty, and
    [sep]-free pieces (possibly empty ones). *)
Fixpoint split (sep : ascii) (s : string) : list string :=
  match s with
  | EmptyString => [EmptyString]
  | String c r =>
      if Ascii.eqb c sep then EmptyString :: split sep r
      else match split sep r with
           | [] => [String c EmptyString]
           | t :: ts => String c t :: ts
           end
  end.

Definition nonempty (s : string) : bool :=
  match s with EmptyString => false | String _ _ => true end.

(** [x in s] for strings: [x] occurs in [s] as a substring. *)
Fixpoint str_in (x s : string) : bool :=
  String.prefix x s ||
  match s with
  | EmptyString => false
  | String _ r => str_in x r
  end.

(** [str(n)] for a natural number. *)
Definition str_of_nat (n : nat) : string :=
  NilZero.string_of_uint (Nat.to_uint n).

(** Truthiness of an [Optional[str]]: [None] and [""] are falsy. *)
Definition truthy_str (o : option string) : bool :=
  match o with Some s => nonempty s | None => false end.

End Py.

(** ** Decoded JSON values *)

Inductive value : Type :=
| VNone
| VBool (b : bool)
| VInt (z : Z)
| VFloat (f : float)
| VStr (s : string)
| VList (l : list value)
| VDict (d : list (string * value)).

Abbreviation dict := (list (string * value)).
Abbreviation path := (list string).

(** [d.get(k)]: the value under [k], or [None]. *)
Fixpoint dict_get (d : dict) (k : string) : value :=
  match d with
  | [] => VNone
  | (k', v) :: r => if String.eqb k' k then v else dict_get r k
  end.

(** [bool(x)] for a float: zero (of either sign) is falsy, NaN is truthy. *)
Definition truthy_float (x : float) : bool := negb (PrimFloat.eqb x 0).

(** [bool(v)]. *)
Definition truthy (v : value) : bool :=
  match v with
  | VNone => false
  | VBool b => b
  | VInt z => negb (Z.eqb z 0)
  | VFloat f => truthy_float f
  | VStr s => Py.nonempty s
  | VList l => match l with [] => false | _ => true end
  | VDict d => match d with [] => false | _ => true end
  end.

(** [a or b]. *)
Definition por (a b : value) : value := if truthy a then a else b.

(** [float(z)] for an [int]: round to nearest even; [OverflowError] (here
    [None]) when the result is not finite. *)
Definition float_of_Z (z : Z) : option float :=
  let f := SF2Prim (binary_normalize prec emax z 0 false) in
  if is_infinity f then None else Some f.

(** ** Common utilities *)

Definition clean_alnum (s : string) : string :=
  Py.lower (Py.filter_str Py.isalnum s).

Definition base_from_symbol (symbol : string) : string :=
  let s := Py.strip
             (Py.replace_pair "_" "-"
                (Py.replace_char "/" "-" (Py.upper symbol))) in
  let parts := filter (fun p => Py.nonempty p = true) (Py.split "-" s) in
  match parts with
  | p :: _ => p
  | [] => if Py.nonempty s then s else "?"
  end.

(** ** Aggregator: tables and key classifiers *)

Definition PLAT_MAP : list (string * string) :=
  [ ("lighter", "Lighter");
    ("zklighter", "Lighter");
    ("hyperliquid", "Hyperliquid");
    ("hyperliquidv2", "Hyperliquid");
    ("hyper", "Hyperliquid") ].

Definition PLATFORM_KEYS : list string :=
  ["platform"; "exchange"; "venue"; "source"; "provider"; "dex";
   "market_provider"].
Definition SYMBOL_KEYS : list string :=
  ["symbol"; "market"; "pair"; "name"; "base"; "asset"; "coin"; "ticker"].
Definition FUND_KEYS : list string :=
  ["funding_rate"; "fundingrate"; "hourlyfundingrate";
   "predictedfundingrate"; "rate"; "value"].

(** [key in PLAT_MAP] and [PLAT_MAP[key]] in one lookup. *)
Fixpoint plat_lookup (m : list (string * string)) (key : string)
  : option string :=
  match m with
  | [] => None
  | (k, v) :: r => if String.eqb k key then Some v else plat_lookup r key
  end.

(** The loop [for k, v in PLAT_MAP.items(): if k in key: return v]. *)
Fixpoint plat_scan (m : list (string * string)) (key : string)
  : option string :=
  match m with
  | [] => None
  | (k, v) :: r => if Py.str_in k key then Some v else plat_scan r key
  end.

Definition norm_platform_label (raw : option string) : option string :=
  if negb (Py.truthy_str raw) then None
  else
    let key := clean_alnum (default "" raw) in
    match plat_lookup PLAT_MAP key with
    | Some v => Some v
    | None => plat_scan PLAT_MAP key
    end.

Definition any_in (keys : list string) (k : string) : bool :=
  existsb (fun x => Py.str_in x k) keys.

Definition is_probable_symbol_key (k : string) : bool :=
  any_in SYMBOL_KEYS (Py.lower k).

Definition is_probable_platform_key (k : string) : bool :=
  any_in PLATFORM_KEYS (Py.lower k).

Definition is_probable_rate_key (k : string) : bool :=
  let k := Py.lower k in
  any_in FUND_KEYS k
  || (Py.str_in "fund" k && negb (Py.str_in "index" k)
      && negb (Py.str_in "time" k)).

(** ** Tree walker *)

(** The generator [traverse], as the list of the pairs it yields. *)
Fixpoint traverse (node : value) (path_keys : path) : list (value * path) :=
  match node with
  | VDict d =>
      (node, path_keys) ::
      (fix items (kvs : dict) : list (value * path) :=
         match kvs with
         | [] => []
         | (k, v) :: r => traverse v (path_keys ++ [k]) ++ items r
         end) d
  | VList l =>
      (fix elems (idx : nat) (vs : list value) : list (value * path) :=
         match vs with
         | [] => []
         | v :: r =>
             traverse v (path_keys ++ [Py.str_of_nat idx]) ++ elems (S idx) r
         end) 0%nat l
  | _ => []
  end.

(** The two inner loops of [traverse], named. *)
Fixpoint traverse_items (path_keys : path) (kvs : dict)
  : list (value * path) :=
  match kvs with
  | [] => []
  | (k, v) :: r => traverse v (path_keys ++ [k]) ++ traverse_items path_keys r
  end.

Fixpoint traverse_elems (path_keys : path) (idx : nat) (vs : list value)
  : list (value * path) :=
  match vs with
  | [] => []
  | v :: r =>
      traverse v (path_keys ++ [Py.str_of_nat idx])
      ++ traverse_elems path_keys (S idx) r
  end.

(** What the walker is specified to produce: the number of object nodes
    of a document ... *)
Fixpoint count_objects (v : value) : nat :=
  match v with
  | VDict d =>
      S ((fix items (kvs : dict) : nat :=
            match kvs with
            | [] => 0
            | (_, v) :: r => count_objects v + items r
            end) d)
  | VList l =>
      (fix elems (vs : list value) : nat :=
         match vs with
         | [] => 0
         | v :: r => count_objects v + elems r
         end) l
  | _ => 0%nat
  end.

(** ... and all the nodes of a document with their positions, a node
    before its children, children from first to last. *)
Fixpoint preorder (v : value) (p : path) : list (value * path) :=
  (v, p) ::
  match v with
  | VDict d =>
      (fix items (kvs : dict) : list (value * path) :=
         match kvs with
         | [] => []
         | (k, v) :: r => preorder v (p ++ [k]) ++ items r
         end) d
  | VList l =>
      (fix elems (idx : nat) (vs : list value) : list (value * path) :=
         match vs with
         | [] => []
         | v :: r => preorder v (p ++ [Py.str_of_nat idx]) ++ elems (S idx) r
         end) 0%nat l
  | _ => []
  end.

Definition is_dict (v : value) : bool :=
  match v with VDict _ => true | _ => false end.

(** ** The reconciliation table *)

(** [by_base]: base asset to platform to rate. *)
Abbreviation table := (gmap string (gmap string float)).

(** [by_base.setdefault(base, {})]. *)
Definition setdefault (base : string) (by_base : table) : table :=
  match by_base !! base with
  | Some _ => by_base
  | None => <[base := ∅]> by_base
  end.

(** [by_base[base][plat] = rate], for a [base] that is a key. *)
Definition set_rate (base plat : string) (rate : float) (by_base : table)
  : table :=
  match by_base !! base with
  | Some row => <[base := <[plat := rate]> row]> by_base
  | None => by_base
  end.

(** [by_base[b].get(p)], [None] also when [b] is not a key. *)
Definition rate_of (by_base : table) (base plat : string) : option float :=
  match by_base !! base with
  | Some row => row !! plat
  | None => None
  end.

(** Python results that may be an exception. *)
Inductive py (A : Type) : Type :=
| Ret (a : A)
| Raise.
Arguments Ret {A} a.
Arguments Raise {A}.

Definition py_bind {A B : Type} (m : py A) (k : A -> py B) : py B :=
  match m with
  | Ret a => k a
  | Raise => Raise
  end.

(** An HTTP response, by what its methods do: [raise_for_status()] raises
    when [raises_for_status] holds, [json()] raises when [json] is [None]. *)
Record response : Type := {
  status_code : Z;
  raises_for_status : bool;
  json : option value
}.

Definition API_AGG : string :=
  "https://mainnet.zklighter.elliot.ai/api/v1/funding-rates".

(** [PARADEX_URL.format(market=mkt)]. *)
Definition PARADEX_URL (market : string) : string :=
  ("https://api.prod.paradex.trade/v1/funding/data?market=" ++ market)%string.

(** The command-line arguments [main] reads. *)
Record args : Type := {
  only_bases : string;
  limit : Z;
  quotes : string;
  sleep_ms : Z;
  paradex_verbose : bool;
  agg_debug : bool
}.

(** [s[:-1]] when [s.endswith("Z")]. *)
Fixpoint chop_Z (s : string) : option string :=
  match s with
  | EmptyString => None
  | String c r =>
      match r with
      | EmptyString => if Ascii.eqb c "Z" then Some EmptyString else None
      | _ => option_map (String c) (chop_Z r)
      end
  end.

(** Truthiness of an [Optional[float]]. *)
Definition truthy_ts (o : option float) : bool :=
  match o with Some x => truthy_float x | None => false end.

(** [a or b] where evaluating [a] or [b] may raise. *)
Definition or_ts (a b : py (option float)) : py (option float) :=
  match a with
  | Raise => Raise
  | Ret x => if truthy_ts x then Ret x else b
  end.

(** [isinstance(v, (int, float, str))]; a [bool] is an [int]. *)
Definition is_scalar (v : value) : bool :=
  match v with
  | VBool _ | VInt _ | VFloat _ | VStr _ => true
  | _ => false
  end.

(** [[x.strip().upper() for x in s.split(",") if x.strip()]]. *)
Definition comma_list (s : string) : list string :=
  map (fun x => Py.upper (Py.strip x))
      (filter (fun x => Py.nonempty (Py.strip x) = true) (Py.split "," s)).

(** ** The program *)

Section Program.

(** [float(s)] for a [str], and [datetime.fromisoformat(s).timestamp()]:
    [None] when Python raises. *)
Variable float_of_str : string -> option float.
Variable iso_timestamp : string -> option float.

(** [float(val)], with [None] for [TypeError], [ValueError] and
    [OverflowError]. *)
Definition py_float (val : value) : option float :=
  match val with
  | VBool b => Some (if b then 1 else 0)%float
  | VInt z => float_of_Z z
  | VFloat f => Some f
  | VStr s => float_of_str s
  | VNone | VList _ | VDict _ => None
  end.

Definition coerce_rate (val : value) : option float :=
  match val with
  | VNone => None
  | _ =>
      match py_float val with
      | None => None
      | Some x =>
          let x := if ((1 <? abs x) && (abs x <=? 100))%float
                   then (x / 100)%float else x in
          if (0.5 <? abs x)%float then None else Some x
      end
  end.

(** *** Record extraction *)

(** One iteration of the first loop of [extract_record]. *)
Definition direct_step
    (st : option string * option string * option float)
    (kv : string * value) : option string * option string * option float :=
  let '(platform, symbol, rate) := st in
  let '(k, v) := kv in
  let '(platform, symbol) :=
    match v with
    | VStr s =>
        (if is_probable_platform_key k && negb (Py.truthy_str platform)
         then norm_platform_label (Some s) else platform,
         if is_probable_symbol_key k && negb (Py.truthy_str symbol)
         then Some s else symbol)
    | _ => (platform, symbol)
    end in
  let rate :=
    if is_scalar v && is_probable_rate_key k
       && match rate with None => true | Some _ => false end
    then coerce_rate v else rate in
  (platform, symbol, rate).

(** The loop over the reversed path: the first truthy guess. *)
Fixpoint path_platform (keys : list string) : option string :=
  match keys with
  | [] => None
  | key :: r =>
      let guess := norm_platform_label (Some key) in
      if Py.truthy_str guess then guess else path_platform r
  end.

(** The inner loop of step 3: the first string under a symbol-like key. *)
Fixpoint first_symbol (d : dict) : option string :=
  match d with
  | [] => None
  | (kk, vv) :: r =>
      match vv with
      | VStr s => if is_probable_symbol_key kk then Some s else first_symbol r
      | _ => first_symbol r
      end
  end.

Fixpoint nested_symbol (symbol : option string) (vals : list value)
  : option string :=
  match vals with
  | [] => symbol
  | v :: r =>
      let symbol :=
        match v with
        | VDict d =>
            match first_symbol d with Some s => Some s | None => symbol end
        | _ => symbol
        end in
      if Py.truthy_str symbol then symbol else nested_symbol symbol r
  end.

(** The inner loop of step 4: the first rate-like scalar that coerces. *)
Fixpoint first_rate (d : dict) : option float :=
  match d with
  | [] => None
  | (kk, vv) :: r =>
      if is_probable_rate_key kk && is_scalar vv
      then match coerce_rate vv with
           | Some x => Some x
           | None => first_rate r
           end
      else first_rate r
  end.

Fixpoint nested_rate (vals : list value) : option float :=
  match vals with
  | [] => None
  | v :: r =>
      match v with
      | VDict d =>
          match first_rate d with Some x => Some x | None => nested_rate r end
      | _ => nested_rate r
      end
  end.

Definition extract_record (d : dict) (path_keys : path)
  : option string * option string * option float :=
  let '(platform, symbol, rate) := fold_left direct_step d (None, None, None) in
  let platform :=
    if negb (Py.truthy_str platform)
    then match path_platform (rev path_keys) with
         | Some g => Some g
         | None => platform
         end
    else platform in
  let symbol :=
    if negb (Py.truthy_str symbol) then nested_symbol symbol (map snd d)
    else symbol in
  let rate :=
    match rate with
    | None => nested_rate (map snd d)
    | Some _ => rate
    end in
  let base := base_from_symbol (default "" symbol) in
  (platform, if Py.truthy_str symbol then Some base else None, rate).

(** *** Reconciliation *)

(** The test [plat not in ("Lighter", "Hyperliquid") or not base or rate is
    None] of [fetch_agg], as the triple it lets through. *)
Definition accepted (rec : option string * option string * option float)
  : option (string * string * float) :=
  match rec with
  | (Some plat, Some base, Some rate) =>
      if (String.eqb plat "Lighter" || String.eqb plat "Hyperliquid")
         && Py.nonempty base
      then Some (plat, base, rate) else None
  | _ => None
  end.

(** The three statements that fold an accepted triple into the table and
    the seed list. *)
Definition upsert (st : table * list string) (t : string * string * float)
  : table * list string :=
  let '(by_base, bases_lighter) := st in
  let '(plat, base, rate) := t in
  let by_base := set_rate base plat rate (setdefault base by_base) in
  let bases_lighter :=
    if String.eqb plat "Lighter" && negb (bool_decide (base ∈ bases_lighter))
    then bases_lighter ++ [base] else bases_lighter in
  (by_base, bases_lighter).

(** The body of the loop [for node, path in traverse(data, ())]. *)
Definition agg_step (st : table * list string) (np : value * path)
  : table * list string :=
  match np with
  | (VDict d, path_keys) =>
      match accepted (extract_record d path_keys) with
      | Some t => upsert st t
      | None => st
      end
  | _ => st
  end.

(** [fetch_agg] from the decoded payload on. *)
Definition reconcile (data : value) : table * list string :=
  fold_left agg_step (traverse data []) (∅, []).

(** The accepted triples of a document, in traversal order. *)
Definition accepted_triples (data : value) : list (string * string * float) :=
  omap (fun np : value * path =>
          match np with
          | (VDict d, path_keys) => accepted (extract_record d path_keys)
          | _ => None
          end) (traverse data []).

(** The bases of a list, each at its first occurrence. *)
Fixpoint first_seen (l : list string) : list string :=
  match l with
  | [] => []
  | x :: r => x :: filter (fun y => y ≠ x) (first_seen r)
  end.

(** The last rate written for [(base, plat)] in a sequence of triples. *)
Fixpoint last_rate (ts : list (string * string * float)) (base plat : string)
  : option float :=
  match ts with
  | [] => None
  | (p, b, r) :: rest =>
      match last_rate rest base plat with
      | Some r' => Some r'
      | None => if String.eqb p plat && String.eqb b base then Some r else None
      end
  end.

(** *** Paradex *)

Definition _parse_ts (ts_val : value) : py (option float) :=
  match ts_val with
  | VNone => Ret None
  | VBool _ | VInt _ | VFloat _ =>
      match py_float ts_val with
      | None => Raise
      | Some x => Ret (Some (if (1e12 <? x)%float then (x / 1000)%float else x))
      end
  | VStr s =>
      let s := Py.strip s in
      let s := match chop_Z s with Some s' => (s' ++ "+00:00")%string | None => s end in
      Ret (iso_timestamp s)
  | VList _ | VDict _ => Ret None
  end.

(** The value of [rate_raw] for an entry. *)
Definition rate_raw (it : dict) : value :=
  por (por (dict_get it "funding_rate") (dict_get it "fundingRate"))
      (dict_get it "hourly_funding_rate").

(** The local [rate] of the loop: [None] sends the loop to [continue]. *)
Definition entry_rate (it : dict) : option float :=
  match rate_raw it with
  | VNone => None
  | raw => py_float raw
  end.

(** The chain of [_parse_ts] calls joined by [or]. *)
Definition entry_ts (it : dict) : py (option float) :=
  or_ts (or_ts (or_ts (or_ts (_parse_ts (dict_get it "timestamp"))
                             (_parse_ts (dict_get it "time")))
                      (_parse_ts (dict_get it "ts")))
               (_parse_ts (dict_get it "created_at")))
        (_parse_ts (dict_get it "updated_at")).

(** One iteration of the loop over [items]; the state is
    [(best_rate, best_ts)]. *)
Definition latest_step (st : option float * float) (it : value)
  : py (option float * float) :=
  match it with
  | VDict d =>
      match entry_rate d with
      | None => Ret st
      | Some rate =>
          py_bind (entry_ts d) (fun ts =>
            let ts := match ts with
                      | None => (snd st + 1)%float
                      | Some t => t
                      end in
            Ret (if (snd st <? ts)%float then (Some rate, ts) else st))
      end
  | _ => Ret st
  end.

Fixpoint latest_loop (items : list value) (st : option float * float)
  : py (option float * float) :=
  match items with
  | [] => Ret st
  | it :: r => py_bind (latest_step st it) (latest_loop r)
  end.

(** The list [items] that the loop runs over, when there is one. *)
Definition paradex_items (payload : value) : option (list value) :=
  let items :=
    match payload with
    | VList _ => payload
    | VDict d =>
        por (por (dict_get d "data") (dict_get d "results"))
            (dict_get d "items")
    | _ => VNone
    end in
  match items with
  | VList (it :: r) => Some (it :: r)
  | _ => None
  end.

Definition extract_paradex_latest (payload : value) : py (option float) :=
  match paradex_items payload with
  | None => Ret None
  | Some items =>
      py_bind (latest_loop items (None, (-1)%float))
              (fun st => Ret (fst st))
  end.

(** *** The market probe *)

Context {World : Type}.

(** [client.get(url)]: the reply, or [None] when the call raises, and the
    world after the request. *)
Variable http_get : string -> World -> option response * World.

(** The client with the requests it has sent so far, oldest first. *)
Record net : Type := {
  world : World;
  sent : list string
}.

Definition client_get (url : string) (n : net) : option response * net :=
  let '(r, w) := http_get url (world n) in
  (r, {| world := w; sent := sent n ++ [url] |}).

(** The body of the [try] for one reply: the rate that is returned, or
    [None] when the loop goes on to the next quote. *)
Definition probe_reply (r : option response) : option float :=
  match r with
  | None => None
  | Some r =>
      if Z.eqb (status_code r) 404 then None
      else if raises_for_status r then None
      else match json r with
           | None => None
           | Some payload =>
               match extract_paradex_latest payload with
               | Ret (Some rate) => Some rate
               | Ret None | Raise => None
               end
           end
  end.

(** The market identifier [f"{base}-{q}-PERP"]. *)
Definition market (base q : string) : string :=
  (base ++ "-" ++ q ++ "-PERP")%string.

(** The loop over [quotes]; [verbose] only prints and is left out. *)
Fixpoint fetch_paradex_latest_for_base
    (base : string) (quotes : list string) (n : net) : option float * net :=
  match quotes with
  | [] => (None, n)
  | q :: qs =>
      let '(r, n') := client_get (PARADEX_URL (market base q)) n in
      match probe_reply r with
      | Some rate => (Some rate, n')
      | None => fetch_paradex_latest_for_base base qs n'
      end
  end.

(** *** fetch_agg and main *)

(** [fetch_agg]: [None] when the request, [raise_for_status()] or [json()]
    raises. The counter [seen_platforms] and the list [debug_samples] only
    feed the prints made under [agg_debug] and are left out. *)
Definition fetch_agg (n : net) : option (table * list string) * net :=
  let '(r, n') := client_get API_AGG n in
  (match r with
   | None => None
   | Some r =>
       if raises_for_status r then None
       else match json r with
            | None => None
            | Some data => Some (reconcile data)
            end
   end, n').

(** The loop [for base in bases] of [main]. *)
Fixpoint probe_bases (qs : list string) (bases : list string)
    (by_base : table) (n : net) : table * net :=
  match bases with
  | [] => (by_base, n)
  | base :: r =>
      let '(rate, n') := fetch_paradex_latest_for_base base qs n in
      let by_base := setdefault base by_base in
      let by_base :=
        match rate with
        | Some x => set_rate base "Paradex" x by_base
        | None => by_base
        end in
      probe_bases qs r by_base n'
  end.

(** The list [bases] that [main] probes, and the table once the bases
    given with [--only-bases] have their rows. *)
Definition probed_bases (a : args) (by_base : table)
    (bases_lighter : list string) : table * list string :=
  let '(by_base, bases) :=
    if Py.nonempty (Py.strip (only_bases a))
    then let bases := comma_list (only_bases a) in
         (fold_left (fun t b => setdefault b t) bases by_base, bases)
    else (by_base, bases_lighter) in
  (by_base, if (0 <? limit a)%Z then take (Z.to_nat (limit a)) bases else bases).

(** [main] up to the rendering: [None] is the exit status 1 of a failed
    aggregator fetch, [Some by_base] the table that is printed with exit
    status 0. *)
Definition main (a : args) (n : net) : option table * net :=
  let '(agg, n) := fetch_agg n in
  match agg with
  | None => (None, n)
  | Some (by_base, bases_lighter) =>
      let '(by_base, bases) := probed_bases a by_base bases_lighter in
      let '(by_base, n) := probe_bases (comma_list (quotes a)) bases by_base n in
      (Some by_base, n)
  end.

End Program.

(** ** Definitions for the statements *)

(** A [float(str)] (and an ISO-8601 reader) that rejects every string: the
    instance used where a statement is evaluated on a document without
    strings in numeric position. *)
Definition rejects_all : string -> option float := fun _ => None.

(** Splitting on the separators ["-"], ["/"] and ["__"], read from left to
    right. *)
Definition cons_head (c : ascii) (ts : list string) : list string :=
  match ts with
  | [] => [String c EmptyString]
  | t :: r => String c t :: r
  end.

Fixpoint split_seps (s : string) : list string :=
  match s with
  | EmptyString => [EmptyString]
  | String c r =>
      if (Ascii.eqb c "-" || Ascii.eqb c "/")%bool
      then EmptyString :: split_seps r
      else match r with
           | String c' r' =>
               if (Ascii.eqb c "_" && Ascii.eqb c' "_")%bool
               then EmptyString :: split_seps r'
               else cons_head c (split_seps r)
           | EmptyString => cons_head c (split_seps r)
           end
  end.

(** The first non-empty token of a string. *)
Definition first_token (s : string) : option string :=
  head (filter (fun p => Py.nonempty p = true) (split_seps s)).

(** A Paradex entry as the selection loop sees it: skipped ([None]), or
    its rate with the outcome of reading its timestamp. *)
Definition entry_view (float_of_str iso_timestamp : string -> option float)
    (it : value) : option (float * py (option float)) :=
  match it with
  | VDict d =>
      match entry_rate float_of_str d with
      | Some rate => Some (rate, entry_ts float_of_str iso_timestamp d)
      | None => None
      end
  | _ => None
  end.


(** An entry with a rate and an integer timestamp, and one with a rate
    only. *)
Definition stamped (rate : float) (ts : Z) : value :=
  VDict [("funding_rate", VFloat rate); ("timestamp", VInt ts)].

(** The first rate in a list of probe outcomes, and the number of
    outcomes up to and including it. *)
Fixpoint first_some (l : list (option float)) : option float :=
  match l with
  | [] => None
  | Some x :: _ => Some x
  | None :: r => first_some r
  end.

Fixpoint tried (l : list (option float)) : nat :=
  match l with
  | [] => 0
  | Some _ :: _ => 1
  | None :: r => S (tried r)
  end.

(** The replies of the server to the markets of [quotes], asked in order
    from the world [w]. *)
Fixpoint replies {World : Type}
    (http_get : string -> World -> option response * World)
    (base : string) (quotes : list string) (w : World)
  : list (option response) :=
  match quotes with
  | [] => []
  | q :: qs =>
      let '(r, w') := http_get (PARADEX_URL (market base q)) w in
      r :: replies http_get base qs w'
  end.

(** The bases of the triples recorded under Lighter, in order. *)
Definition lighter_bases (ts : list (string * string * float)) : list string :=
  omap (fun t : string * string * float =>
          let '(plat, base, _) := t in
          if String.eqb plat "Lighter" then Some base else None) ts.

(** The children of a node in the pre-order enumeration, named. *)
Fixpoint preorder_items (p : path) (kvs : dict) : list (value * path) :=
  match kvs with
  | [] => []
  | (k, v) :: r => preorder v (p ++ [k]) ++ preorder_items p r
  end.

Fixpoint preorder_elems (p : path) (idx : nat) (vs : list value)
  : list (value * path) :=
  match vs with
  | [] => []
  | v :: r =>
      preorder v (p ++ [Py.str_of_nat idx]) ++ preorder_elems p (S idx) r
  end.

(** The separators of a symbol, all written ["-"]. *)
Definition to_dash (c : ascii) : ascii :=
  if Ascii.eqb c "/" then "-"%char else c.

Definition dashed (s : string) : string :=
  Py.replace_pair "_" "-" (Py.replace_char "/" "-" s).



(** A sample network: the aggregator serves a document with BTC and ETH
    under Lighter and BTC under Hyperliquid, Paradex lists BTC-USDC-PERP
    only, and every other request is answered 404. *)
Definition sample_agg : value :=
  VDict
    [("Lighter",
      VList [VDict [("symbol", VStr "BTC-USD"); ("funding_rate", VFloat 0.001)];
             VDict [("symbol", VStr "ETH-USD"); ("funding_rate", VFloat 0.002)]]);
     ("hyperliquid",
      VDict [("market", VStr "btc/usdt"); ("fundingRate", VFloat 1.5)])].

Definition sample_funding : value :=
  VDict [("results", VList [stamped 0.01 100; stamped 0.02 300])].

Definition reply_ok (body : value) : option response :=
  Some {| status_code := 200; raises_for_status := false; json := Some body |}.

Definition reply_404 : option response :=
  Some {| status_code := 404; raises_for_status := true; json := None |}.

Definition sample_get (url : string) (w : unit) : option response * unit :=
  if String.eqb url API_AGG then (reply_ok sample_agg, w)
  else if String.eqb url (PARADEX_URL "BTC-USDC-PERP")
       then (reply_ok sample_funding, w)
       else (reply_404, w).

Definition sample_net : net := {| world := tt; sent := [] |}.

Definition sample_args : args :=
  {| only_bases := ""; limit := 0; quotes := "USD,USDC"; sleep_ms := 250;
     paradex_verbose := false; agg_debug := false |}.

(** ** Definitions for further statements *)

(** [all(f(ch) for ch in s)]. *)
Fixpoint all_str (f : ascii -> bool) (s : string) : bool :=
  match s with
  | EmptyString => true
  | String c r => f c && all_str f r
  end.

(** A ticker written with upper-case letters and digits only. *)
Definition is_ticker (s : string) : bool :=
  Py.nonempty s && all_str (fun c => Py.isupper c || Py.isdigit c) s.

(** The first string under a platform-like key that resolves. *)
Fixpoint direct_platform (d : dict) : option string :=
  match d with
  | [] => None
  | (k, v) :: r =>
      match v with
      | VStr s =>
          if is_probable_platform_key k
          then match norm_platform_label (Some s) with
               | Some p => Some p
               | None => direct_platform r
               end
          else direct_platform r
      | _ => direct_platform r
      end
  end.

(** The first non-empty string under a symbol-like key. *)
Fixpoint direct_symbol (d : dict) : option string :=
  match d with
  | [] => None
  | (k, v) :: r =>
      match v with
      | VStr s =>
          if is_probable_symbol_key k && Py.nonempty s then Some s
          else direct_symbol r
      | _ => direct_symbol r
      end
  end.

(** The nested symbol: the leading symbol ([first_symbol]) of the first
    object among [vals] whose leading symbol is not empty. *)
Fixpoint nested_symbol_of (vals : list value) : option string :=
  match vals with
  | [] => None
  | v :: r =>
      match v with
      | VDict d =>
          match first_symbol d with
          | Some s => if Py.nonempty s then Some s else nested_symbol_of r
          | None => nested_symbol_of r
          end
      | _ => nested_symbol_of r
      end
  end.

(** The first platform that a key of the path resolves to, from the
    deepest key up. *)
Fixpoint path_platform_of (keys : list string) : option string :=
  match keys with
  | [] => None
  | key :: r =>
      match norm_platform_label (Some key) with
      | Some p => Some p
      | None => path_platform_of r
      end
  end.

(** The first loop of [extract_record], one component of its state at a
    time. *)
Definition platform_step (platform : option string) (kv : string * value)
  : option string :=
  match snd kv with
  | VStr s =>
      if is_probable_platform_key (fst kv) && negb (Py.truthy_str platform)
      then norm_platform_label (Some s) else platform
  | _ => platform
  end.

Definition symbol_step (symbol : option string) (kv : string * value)
  : option string :=
  match snd kv with
  | VStr s =>
      if is_probable_symbol_key (fst kv) && negb (Py.truthy_str symbol)
      then Some s else symbol
  | _ => symbol
  end.

Definition rate_step (float_of_str : string -> option float)
    (rate : option float) (kv : string * value) : option float :=
  if is_scalar (snd kv) && is_probable_rate_key (fst kv)
     && match rate with None => true | Some _ => false end
  then coerce_rate float_of_str (snd kv) else rate.


(** An entry that the selection loop does not skip. *)
Definition is_rated (float_of_str : string -> option float) (it : value)
  : bool :=
  match it with
  | VDict d =>
      match entry_rate float_of_str d with Some _ => true | None => false end
  | _ => false
  end.

(** *** The pivot table *)

(** [c * n] for a one-character string [c]. *)
Fixpoint repeat_char (c : ascii) (n : nat) : string :=
  match n with
  | O => EmptyString
  | S n' => String c (repeat_char c n')
  end.

(** The local function [pad] of [print_pivot]. *)
Definition pad (s : string) (w : nat) : string :=
  (s ++ repeat_char " " (w - String.length s))%string.

(** [max(len(h), *(len(c) for c in cells))], which is [len(h)] without
    cells. *)
Definition max_len (h : string) (cells : list string) : nat :=
  foldr (fun c m => Nat.max (String.length c) m) (String.length h) cells.

(** The order of [str]: by characters, a prefix first. *)
Definition str_le (a b : string) : Prop := String.leb a b = true.

#[global] Instance str_le_dec (a b : string) : Decision (str_le a b) :=
  decide_rel (=) (String.leb a b) true.

(** [sorted(by_base.keys())]. *)
Definition sorted_bases (by_base : table) : list string :=
  merge_sort str_le (map fst (map_to_list by_base)).

(** One line of the table between its bars. *)
Definition table_row (c1 c2 c3 c4 : nat) (a b c d : string) : string :=
  ("| " ++ pad a c1 ++ " | " ++ pad b c2 ++ " | " ++ pad c c3 ++ " | "
   ++ pad d c4 ++ " |")%string.

Section Pivot.

(** [pct], the rendering of a cell, and the time stamp of the last line
    are taken as given: they depend on the formatting of floats and on the
    clock. Lengths are those of [len]. *)
Variable pct : option float -> string.
Variable now : string.

Definition cell (by_base : table) (plat b : string) : string :=
  pct (rate_of by_base b plat).

(** [print_pivot], as the list of the lines it prints. *)
Definition print_pivot (by_base : table) : list string :=
  let bases := sorted_bases by_base in
  let col1 := max_len "Activo" bases in
  let col2 := max_len "Hyperliquid/hr" (map (cell by_base "Hyperliquid") bases) in
  let col3 := max_len "Lighter/hr" (map (cell by_base "Lighter") bases) in
  let col4 := max_len "Paradex/hr" (map (cell by_base "Paradex") bases) in
  let line := repeat_char "-" (col1 + col2 + col3 + col4 + 10) in
  [line;
   table_row col1 col2 col3 col4
     "Activo" "Hyperliquid/hr" "Lighter/hr" "Paradex/hr";
   line]
  ++ map (fun b =>
            table_row col1 col2 col3 col4 b
              (cell by_base "Hyperliquid" b) (cell by_base "Lighter" b)
              (cell by_base "Paradex" b)) bases
  ++ [line;
      (Py.str_of_nat (length bases) ++ " tokens • " ++ now)%string].

End Pivot.

(** A request for the market of one of [bases] and one of [qs]. *)
Definition probe_url (bases qs : list string) (u : string) : Prop :=
  exists b q, b ∈ bases /\ q ∈ qs /\ u = PARADEX_URL (market b q).

(** ** Binary64 order *)

Module Flt.

Lemma SFcompare_trans (x y z : spec_float) (c1 c2 : comparison) :
  SFcompare x y = Some c1 -> SFcompare y z = Some c2 ->
  c1 <> Gt -> c2 <> Gt ->
  SFcompare x z = Some (match c1 with Eq => c2 | _ => Lt end).
Proof.
  intros H1 H2 N1 N2.
  destruct x as [sx|sx| |sx mx ex], y as [sy|sy| |sy my ey],
    z as [sz|sz| |sz mz ez];
    repeat match goal with s : bool |- _ => destruct s end;
    cbn in H1, H2 |- *; simplify_eq; try congruence;
    rewrite ?Pos.compare_cont_spec in *; cbn in *.
  all: try (destruct (ex ?= ey)%Z, (mx ?= my)%positive; cbn in *; congruence).
  all: destruct (Z.compare_spec ex ey), (Z.compare_spec ey ez),
       (Z.compare_spec ex ez), (Pos.compare_spec mx my),
       (Pos.compare_spec my mz), (Pos.compare_spec mx mz);
       cbn in *; simplify_eq; try congruence; try lia.
Qed.


Lemma SFcompare_swap (x y : spec_float) :
  SFcompare y x = option_map CompOpp (SFcompare x y).
Proof.
  destruct x as [sx|sx| |sx mx ex], y as [sy|sy| |sy my ey];
    repeat match goal with s : bool |- _ => destruct s end; cbn; try reflexivity.
  all: rewrite (Z.compare_antisym ex ey), !Pos.compare_cont_spec,
        (Pos.compare_antisym mx my); cbn;
       destruct (ex ?= ey)%Z, (mx ?= my)%positive; reflexivity.
Qed.

Open Scope float_scope.

Lemma ltb_cmp (x y : float) :
  (x <? y) = true <-> SFcompare (Prim2SF x) (Prim2SF y) = Some Lt.
Proof.
  rewrite ltb_spec. unfold SFltb.
  destruct (SFcompare _ _) as [[]|]; split; congruence.
Qed.

Lemma leb_cmp (x y : float) :
  (x <=? y) = true <->
  exists c, SFcompare (Prim2SF x) (Prim2SF y) = Some c /\ c <> Gt.
Proof.
  rewrite leb_spec. unfold SFleb.
  destruct (SFcompare _ _) as [[]|]; split; try congruence; eauto;
    try (intros (c & ? & ?); congruence);
    intros _; eexists; split; eauto; congruence.
Qed.


Lemma ltb_trans (x y z : float) :
  (x <? y) = true -> (y <? z) = true -> (x <? z) = true.
Proof.
  rewrite !ltb_cmp. intros H1 H2.
  rewrite (SFcompare_trans _ _ _ _ _ H1 H2); congruence.
Qed.




Lemma leb_not_ltb (x y : float) : (x <=? y) = true -> (y <? x) = false.
Proof.
  rewrite leb_cmp. intros (c & H & Hc). apply not_true_is_false.
  rewrite ltb_cmp, SFcompare_swap, H. destruct c; cbn; congruence.
Qed.

Lemma ltb_not_leb (x y : float) : (x <? y) = true -> (y <=? x) = false.
Proof.
  intros H. apply not_true_is_false. intros H'.
  apply leb_not_ltb in H'. congruence.
Qed.

End Flt.

(** ** The tree walker *)

Section ValueInd.

Variable P : value -> Prop.
Hypothesis HNone : P VNone.
Hypothesis HBool : forall b, P (VBool b).
Hypothesis HInt : forall z, P (VInt z).
Hypothesis HFloat : forall f, P (VFloat f).
Hypothesis HStr : forall s, P (VStr s).
Hypothesis HList : forall l, Forall P l -> P (VList l).
Hypothesis HDict : forall d, Forall (fun kv => P (snd kv)) d -> P (VDict d).

Fixpoint value_nested_ind (v : value) : P v :=
  match v with
  | VNone => HNone
  | VBool b => HBool b
  | VInt z => HInt z
  | VFloat f => HFloat f
  | VStr s => HStr s
  | VList l =>
      HList l
        ((fix go (vs : list value) : Forall P vs :=
            match vs with
            | [] => Forall_nil_2 P
            | v :: r => Forall_cons_2 P v r (value_nested_ind v) (go r)
            end) l)
  | VDict d =>
      HDict d
        ((fix go (kvs : dict) : Forall (fun kv => P (snd kv)) kvs :=
            match kvs with
            | [] => Forall_nil_2 _
            | kv :: r =>
                Forall_cons_2 (fun kv => P (snd kv)) kv r
                  (value_nested_ind (snd kv)) (go r)
            end) d)
  end.

End ValueInd.

Lemma traverse_dict (d : dict) (p : path) :
  traverse (VDict d) p = (VDict d, p) :: traverse_items p d.
Proof.
  cbn. f_equal. induction d as [|[k v] r IH]; cbn; [reflexivity|].
  f_equal. exact IH.
Qed.

Lemma traverse_list (l : list value) (p : path) :
  traverse (VList l) p = traverse_elems p 0 l.
Proof.
  cbn. generalize 0%nat. induction l as [|v r IH]; intros n; cbn; [reflexivity|].
  f_equal. apply IH.
Qed.

Lemma preorder_dict (d : dict) (p : path) :
  preorder (VDict d) p = (VDict d, p) :: preorder_items p d.
Proof.
  cbn. f_equal. induction d as [|[k v] r IH]; cbn; [reflexivity|].
  f_equal. exact IH.
Qed.

Lemma preorder_list (l : list value) (p : path) :
  preorder (VList l) p = (VList l, p) :: preorder_elems p 0 l.
Proof.
  cbn. f_equal. generalize 0%nat.
  induction l as [|v r IH]; intros n; cbn; [reflexivity|].
  f_equal. apply IH.
Qed.

(** The walker keeps the object nodes of the pre-order enumeration. *)
Lemma traverse_preorder (v : value) :
  forall p, traverse v p = filter (fun np => is_dict (fst np) = true) (preorder v p).
Proof.
  induction v as [| | | | |l IH|d IH] using value_nested_ind; intros p;
    try reflexivity.
  - rewrite traverse_list, preorder_list.
    rewrite filter_cons_False by (cbn; discriminate).
    generalize 0%nat.
    induction IH as [|v r Hv _ IHr]; intros n; cbn; [reflexivity|].
    rewrite filter_app, <- Hv, <- IHr. reflexivity.
  - rewrite traverse_dict, preorder_dict.
    rewrite filter_cons_True by reflexivity. f_equal.
    induction IH as [|[k v] r Hv _ IHr]; cbn; [reflexivity|].
    rewrite filter_app, <- Hv, <- IHr. reflexivity.
Qed.

Lemma traverse_count (v : value) :
  forall p, length (traverse v p) = count_objects v.
Proof.
  induction v as [| | | | |l IH|d IH] using value_nested_ind; intros p;
    try reflexivity.
  - rewrite traverse_list.
    enough (forall n, length (traverse_elems p n l) = count_objects (VList l))
      by auto.
    induction IH as [|v r Hv _ IHr]; intros n; cbn; [reflexivity|].
    rewrite length_app, Hv, IHr. reflexivity.
  - rewrite traverse_dict. cbn. f_equal.
    induction IH as [|[k v] r Hv _ IHr]; cbn; [reflexivity|].
    rewrite length_app, Hv, IHr. reflexivity.
Qed.

Lemma traverse_yields_dicts (v : value) :
  forall p, Forall (fun np => is_dict (fst np) = true) (traverse v p).
Proof.
  intros p. rewrite traverse_preorder. apply list.Forall_forall.
  intros x Hx. apply list_elem_of_filter in Hx. tauto.
Qed.

(** Every yielded node is followed at once by what the walker yields
    below it. *)
Lemma traverse_subtree (v : value) :
  forall p d q, (d, q) ∈ traverse v p ->
    exists l1 l2, traverse v p = l1 ++ traverse d q ++ l2.
Proof.
  induction v as [| | | | |l IH|d0 IH] using value_nested_ind; intros p d q;
    try (cbn; intros H; inversion H; fail).
  - rewrite traverse_list. generalize 0%nat.
    induction IH as [|v r Hv _ IHr]; intros n; cbn; intros Hin.
    + inversion Hin.
    + apply elem_of_app in Hin as [Hin|Hin].
      * destruct (Hv _ _ _ Hin) as (l1 & l2 & E).
        exists l1, (l2 ++ traverse_elems p (S n) r).
        rewrite E, <- !app_assoc. reflexivity.
      * destruct (IHr _ Hin) as (l1 & l2 & E).
        exists (traverse v (p ++ [Py.str_of_nat n]) ++ l1), l2.
        rewrite E, <- !app_assoc. reflexivity.
  - rewrite traverse_dict. intros Hin.
    apply elem_of_cons in Hin as [[= -> ->]|Hin].
    + exists [], []. rewrite app_nil_r, traverse_dict. reflexivity.
    + assert (exists l1 l2, traverse_items p d0 = l1 ++ traverse d q ++ l2)
        as (l1 & l2 & E).
      { clear -IH Hin.
        induction IH as [|[k v] r Hv _ IHr]; cbn in Hin |- *.
        - inversion Hin.
        - cbn in Hv. apply elem_of_app in Hin as [Hin|Hin].
          + destruct (Hv _ _ _ Hin) as (l1 & l2 & E).
            exists l1, (l2 ++ traverse_items p r).
            rewrite E, <- !app_assoc. reflexivity.
          + destruct (IHr Hin) as (l1 & l2 & E).
            exists (traverse v (p ++ [k]) ++ l1), l2.
            rewrite E, <- !app_assoc. reflexivity. }
      exists ((VDict d0, p) :: l1), l2. rewrite E. reflexivity.
Qed.

(** C4. The walker yields exactly the object nodes of the document, one
    pair for each, in pre-order: the yielded pairs are the pre-order
    enumeration of all nodes restricted to objects, there are as many as
    the document has object nodes, an object is the first pair of what the
    walker yields for it, and every yielded node is immediately followed by
    the pairs of its descendants. Elements of an array are visited in order
    under the decimal string of their index, and a scalar yields nothing.
    For [{"a":{"b":{"c":1}}}] the paths are [()], [("a")], [("a","b")]. *)
Theorem traverse_preorder_objects (node : value) (path_keys : path) :
  traverse node path_keys =
    filter (fun np => is_dict (fst np) = true) (preorder node path_keys) /\
  length (traverse node path_keys) = count_objects node /\
  Forall (fun np => is_dict (fst np) = true) (traverse node path_keys) /\
  (forall d, traverse (VDict d) path_keys =
     (VDict d, path_keys) :: traverse_items path_keys d) /\
  (forall k v r, traverse_items path_keys ((k, v) :: r) =
     traverse v (path_keys ++ [k]) ++ traverse_items path_keys r) /\
  (forall l, traverse (VList l) path_keys = traverse_elems path_keys 0 l) /\
  (forall idx v r, traverse_elems path_keys idx (v :: r) =
     traverse v (path_keys ++ [Py.str_of_nat idx])
     ++ traverse_elems path_keys (S idx) r) /\
  (forall d q, (d, q) ∈ traverse node path_keys ->
     exists l1 l2, traverse node path_keys = l1 ++ traverse d q ++ l2) /\
  (forall b z f s,
     traverse VNone path_keys = [] /\ traverse (VBool b) path_keys = [] /\
     traverse (VInt z) path_keys = [] /\ traverse (VFloat f) path_keys = [] /\
     traverse (VStr s) path_keys = []) /\
  map snd (traverse (VDict [("a", VDict [("b", VDict [("c", VInt 1)])])]) []) =
    [[]; ["a"]; ["a"; "b"]] /\
  map snd (traverse (VList [VDict []; VInt 7; VList [VDict [("x", VDict [])]]])
             []) = [["0"]; ["2"; "0"]; ["2"; "0"; "x"]].
Proof.
  split; [apply traverse_preorder|].
  split; [apply traverse_count|].
  split; [apply traverse_yields_dicts|].
  split; [intros; apply traverse_dict|].
  split; [reflexivity|].
  split; [intros; apply traverse_list|].
  split; [reflexivity|].
  split; [apply traverse_subtree|].
  split; [intros; repeat split|].
  split; reflexivity.
Qed.

(** ** The rate normaliser *)

Section Normalizer.

Variable float_of_str : string -> option float.

Local Open Scope float_scope.

Lemma coerce_rate_parsed (val : value) (v : float) :
  py_float float_of_str val = Some v ->
  coerce_rate float_of_str val =
    let x := if (1 <? abs v) && (abs v <=? 100) then v / 100 else v in
    if 0.5 <? abs x then None else Some x.
Proof.
  intros H. unfold coerce_rate. rewrite H.
  destruct val; try reflexivity. discriminate H.
Qed.

(** C1. On a scalar that [float] parses to [v], [coerce_rate] scales [v]
    to [v / 100] when [1 < |v| <= 100] and leaves it unchanged when
    [|v| <= 1]; whatever the scaled value, it is returned only when its
    magnitude does not exceed 0.5, and no value is returned otherwise. So
    1.0 is not divided and is rejected, magnitudes over 100 are rejected,
    3.2 gives 0.032, 0.015 gives 0.015 and 60 gives no value. *)
Theorem coerce_rate_normalizes (val : value) (v : float) :
  py_float float_of_str val = Some v ->
  ((1 <? abs v) = true -> (abs v <=? 100) = true ->
   coerce_rate float_of_str val =
     if 0.5 <? abs (v / 100) then None else Some (v / 100)) /\
  ((abs v <=? 1) = true ->
   coerce_rate float_of_str val = if 0.5 <? abs v then None else Some v) /\
  ((100 <? abs v) = true -> coerce_rate float_of_str val = None) /\
  (forall y, coerce_rate float_of_str val = Some y -> (0.5 <? abs y) = false) /\
  coerce_rate float_of_str (VFloat 1) = None /\
  coerce_rate float_of_str (VFloat 3.2) = Some 0.032 /\
  coerce_rate float_of_str (VFloat 0.015) = Some 0.015 /\
  coerce_rate float_of_str (VInt 60) = None.
Proof.
  intros H. rewrite (coerce_rate_parsed _ _ H). cbn zeta.
  repeat split; try (vm_compute; reflexivity).
  - intros H1 H2. rewrite H1, H2. reflexivity.
  - intros H1. rewrite (Flt.leb_not_ltb _ _ H1). reflexivity.
  - intros H1. rewrite (Flt.ltb_not_leb _ _ H1), andb_false_r.
    rewrite (Flt.ltb_trans 0.5 100 (abs v)); [reflexivity| reflexivity | exact H1].
  - intros y. destruct (0.5 <? abs _) eqn:E; [discriminate|].
    intros [= <-]. exact E.
Qed.

End Normalizer.

Lemma coerce_rate_normalizes_witness :
  py_float rejects_all (VFloat 3.2) = Some 3.2%float /\
  coerce_rate rejects_all (VFloat 3.2) = Some 0.032%float.
Proof.
  split; [reflexivity|].
  destruct (coerce_rate_normalizes rejects_all (VFloat 3.2) 3.2 eq_refl)
    as [Hscaled _].
  rewrite Hscaled; reflexivity.
Defined.

(** ** Base extraction *)

Section Strings.

Local Open Scope bool_scope.

Lemma string_pair_ind (P : string -> Prop) :
  P EmptyString ->
  (forall c, P (String c EmptyString)) ->
  (forall c c' r, P r -> P (String c' r) -> P (String c (String c' r))) ->
  forall s, P s.
Proof.
  intros H0 H1 H2 s.
  enough (P s /\ forall c, P (String c s)) by tauto.
  induction s as [|a r [IH1 IH2]]; split; auto.
Qed.

Lemma replace_pair_skip (a b c : ascii) (r : string) :
  Ascii.eqb c a = false ->
  Py.replace_pair a b (String c r) = String c (Py.replace_pair a b r).
Proof. intros H. destruct r; cbn; rewrite ?H; reflexivity. Qed.

Lemma replace_pair_next (a b c c' : ascii) (r : string) :
  Ascii.eqb c' a = false ->
  Py.replace_pair a b (String c (String c' r)) =
  String c (Py.replace_pair a b (String c' r)).
Proof. intros H. cbn. rewrite H, andb_false_r. reflexivity. Qed.

Lemma replace_pair_hit (a b : ascii) (r : string) :
  Py.replace_pair a b (String a (String a r)) = String b (Py.replace_pair a b r).
Proof. cbn. rewrite Ascii.eqb_refl. reflexivity. Qed.

Lemma to_dash_underscore (c : ascii) :
  Ascii.eqb (to_dash c) "_" = Ascii.eqb c "_".
Proof.
  unfold to_dash. destruct (Ascii.eqb_spec c "/") as [->|]; reflexivity.
Qed.

Lemma to_dash_dash (c : ascii) :
  Ascii.eqb (to_dash c) "-" = Ascii.eqb c "-" || Ascii.eqb c "/".
Proof.
  unfold to_dash. destruct (Ascii.eqb_spec c "/") as [->|]; [reflexivity|].
  rewrite orb_false_r. reflexivity.
Qed.

Lemma dashed_cons (c : ascii) (r : string) :
  dashed (String c r) =
  Py.replace_pair "_" "-" (String (to_dash c) (Py.replace_char "/" "-" r)).
Proof. reflexivity. Qed.

Lemma dashed_skip (c : ascii) (r : string) :
  Ascii.eqb c "_" = false ->
  dashed (String c r) = String (to_dash c) (dashed r).
Proof.
  intros H. rewrite dashed_cons. apply replace_pair_skip.
  rewrite to_dash_underscore. exact H.
Qed.

Lemma dashed_next (c' : ascii) (r : string) :
  Ascii.eqb c' "_" = false ->
  dashed (String "_" (String c' r)) = String "_" (dashed (String c' r)).
Proof.
  intros H. rewrite !dashed_cons. cbn [Py.replace_char Py.map_str].
  fold (to_dash c'). change (to_dash "_") with "_"%char.
  apply replace_pair_next. rewrite to_dash_underscore. exact H.
Qed.

Lemma dashed_hit (r : string) :
  dashed (String "_" (String "_" r)) = String "-" (dashed r).
Proof. apply replace_pair_hit. Qed.

Lemma split_cons (sep c : ascii) (s : string) :
  Py.split sep (String c s) =
  if Ascii.eqb c sep then EmptyString :: Py.split sep s
  else cons_head c (Py.split sep s).
Proof. reflexivity. Qed.

Lemma split_seps_cons (c c' : ascii) (r : string) :
  split_seps (String c (String c' r)) =
  if Ascii.eqb c "-" || Ascii.eqb c "/" then EmptyString :: split_seps (String c' r)
  else if Ascii.eqb c "_" && Ascii.eqb c' "_" then EmptyString :: split_seps r
       else cons_head c (split_seps (String c' r)).
Proof. reflexivity. Qed.

(** Rewriting ["/"] and ["__"] to ["-"] and splitting on ["-"] is
    splitting on the three separators. *)
Lemma split_dashed (s : string) : Py.split "-" (dashed s) = split_seps s.
Proof.
  induction s as [|c|c c' r IH1 IH2] using string_pair_ind.
  - reflexivity.
  - cbn. destruct (Ascii.eqb_spec c "/") as [->|Hs]; [reflexivity|].
    rewrite orb_false_r. destruct (Ascii.eqb c "-"); reflexivity.
  - rewrite split_seps_cons.
    destruct (Ascii.eqb_spec c "_") as [->|Hu].
    + cbn [Ascii.eqb Bool.eqb andb orb].
      destruct (Ascii.eqb_spec c' "_") as [->|Hu'].
      * rewrite dashed_hit, split_cons. cbn [Ascii.eqb Bool.eqb andb].
        rewrite IH1. reflexivity.
      * rewrite dashed_next by (apply Ascii.eqb_neq; exact Hu').
        rewrite split_cons. cbn [Ascii.eqb Bool.eqb andb].
        rewrite IH2. reflexivity.
    + rewrite dashed_skip by (apply Ascii.eqb_neq; exact Hu).
      rewrite split_cons, to_dash_dash, IH2. cbn [andb].
      destruct (Ascii.eqb c "-" || Ascii.eqb c "/") eqn:E; [reflexivity|].
      unfold to_dash. apply orb_false_elim in E as [_ ->]. reflexivity.
Qed.

Lemma isspace_not_underscore (c : ascii) :
  Py.isspace c = true -> Ascii.eqb c "_" = false.
Proof.
  intros H. destruct (Ascii.eqb_spec c "_") as [->|]; [discriminate H|reflexivity].
Qed.

Lemma isspace_to_dash (c : ascii) : Py.isspace (to_dash c) = Py.isspace c.
Proof.
  unfold to_dash. destruct (Ascii.eqb_spec c "/") as [->|]; reflexivity.
Qed.

Lemma dashed_single (c : ascii) :
  dashed (String c EmptyString) = String (to_dash c) EmptyString.
Proof. reflexivity. Qed.

Lemma dashed_head (c : ascii) (r : string) :
  exists x y, dashed (String c r) = String x y /\ Py.isspace x = Py.isspace c.
Proof.
  destruct (Ascii.eqb_spec c "_") as [->|Hu].
  - destruct r as [|c' r]; [eexists _, _; split; reflexivity|].
    destruct (Ascii.eqb_spec c' "_") as [->|Hu'].
    + rewrite dashed_hit. eexists _, _; split; reflexivity.
    + rewrite dashed_next by (apply Ascii.eqb_neq; exact Hu').
      eexists _, _; split; reflexivity.
  - rewrite dashed_skip by (apply Ascii.eqb_neq; exact Hu).
    eexists _, _; split; [reflexivity|apply isspace_to_dash].
Qed.

Lemma lstrip_dashed (s : string) : Py.lstrip (dashed s) = dashed (Py.lstrip s).
Proof.
  induction s as [|c r IH]; [reflexivity|].
  cbn [Py.lstrip]. destruct (Py.isspace c) eqn:E.
  - rewrite dashed_skip by (apply isspace_not_underscore; exact E).
    cbn [Py.lstrip]. rewrite isspace_to_dash, E. exact IH.
  - destruct (dashed_head c r) as (x & y & -> & Hx).
    cbn [Py.lstrip]. rewrite Hx, E. reflexivity.
Qed.

Lemma rstrip_keep (c : ascii) (r : string) :
  Py.isspace c = false -> Py.rstrip (String c r) = String c (Py.rstrip r).
Proof. intros H. cbn. rewrite H. destruct (Py.rstrip r); reflexivity. Qed.

Lemma rstrip_cons (c : ascii) (r : string) :
  Py.rstrip (String c r) =
  match Py.rstrip r with
  | EmptyString => if Py.isspace c then EmptyString else String c EmptyString
  | r' => String c r'
  end.
Proof. reflexivity. Qed.

Lemma rstrip_head (a x : ascii) (r y : string) :
  Py.rstrip (String a r) = String x y -> x = a.
Proof.
  rewrite rstrip_cons. destruct (Py.rstrip r); [destruct (Py.isspace a)|];
    congruence.
Qed.

Lemma rstrip_dashed (s : string) : Py.rstrip (dashed s) = dashed (Py.rstrip s).
Proof.
  induction s as [|c|c c' r IH1 IH2] using string_pair_ind.
  - reflexivity.
  - rewrite dashed_single. cbn. rewrite isspace_to_dash.
    destruct (Py.isspace c); reflexivity.
  - destruct (Ascii.eqb_spec c "_") as [->|Hu].
    + destruct (Ascii.eqb_spec c' "_") as [->|Hu'].
      * rewrite dashed_hit, !rstrip_keep by reflexivity.
        rewrite dashed_hit, IH1. reflexivity.
      * rewrite dashed_next by (apply Ascii.eqb_neq; exact Hu').
        rewrite !rstrip_keep by reflexivity. rewrite IH2.
        destruct (Py.rstrip (String c' r)) as [|x y] eqn:E; [reflexivity|].
        apply rstrip_head in E as E'. subst x.
        rewrite dashed_next by (apply Ascii.eqb_neq; exact Hu'). reflexivity.
    + rewrite dashed_skip by (apply Ascii.eqb_neq; exact Hu).
      rewrite (rstrip_cons c), (rstrip_cons (to_dash c)), IH2.
      destruct (Py.rstrip (String c' r)) as [|x y] eqn:E.
      * cbn [dashed Py.replace_char Py.map_str Py.replace_pair].
        rewrite isspace_to_dash. destruct (Py.isspace c); reflexivity.
      * destruct (dashed_head x y) as (x' & y' & E' & _). rewrite E', <- E'.
        rewrite (dashed_skip c) by (apply Ascii.eqb_neq; exact Hu). reflexivity.
Qed.

Lemma strip_dashed (s : string) : Py.strip (dashed s) = dashed (Py.strip s).
Proof. unfold Py.strip. rewrite lstrip_dashed, rstrip_dashed. reflexivity. Qed.

Lemma nonempty_dashed (s : string) : Py.nonempty (dashed s) = Py.nonempty s.
Proof.
  destruct s as [|c r]; [reflexivity|].
  destruct (dashed_head c r) as (x & y & -> & _). reflexivity.
Qed.

Lemma base_from_symbol_unfold (symbol : string) :
  base_from_symbol symbol =
  let s := dashed (Py.strip (Py.upper symbol)) in
  match first_token (Py.strip (Py.upper symbol)) with
  | Some t => t
  | None => if Py.nonempty s then s else "?"
  end.
Proof.
  unfold base_from_symbol, first_token. fold (dashed (Py.upper symbol)).
  rewrite strip_dashed, split_dashed. cbn zeta.
  destruct (filter _ _); reflexivity.
Qed.

End Strings.

(** C6 (as stated, refuted). The symbol [" btc-usd"], upper-cased and split
    on the separators, has the first non-empty token [" BTC"], with its
    leading space; [base_from_symbol] returns ["BTC"]. *)
Lemma base_from_symbol_trims :
  first_token (Py.upper " btc-usd") = Some " BTC" /\
  base_from_symbol " btc-usd" = "BTC" /\
  Some (base_from_symbol " btc-usd") <> first_token (Py.upper " btc-usd").
Proof. repeat split. discriminate. Qed.

(** C6 (amended). [base_from_symbol] returns the first non-empty token of
    the symbol after upper-casing, trimming the surrounding whitespace and
    splitting on the separators ["-"], ["/"] and ["__"]; without such a
    token it returns ["?"] when the trimmed symbol is empty, as for the
    empty string, and otherwise the symbol with its separators written
    ["-"]. ["BTC/USDT"] gives ["BTC"], ["eth-perp"] gives ["ETH"],
    ["A__B-C"] gives ["A"] and [""] gives ["?"]. *)
Theorem base_from_symbol_first_token (symbol : string) :
  base_from_symbol symbol =
    match first_token (Py.strip (Py.upper symbol)) with
    | Some t => t
    | None =>
        if Py.nonempty (Py.strip (Py.upper symbol))
        then dashed (Py.strip (Py.upper symbol)) else "?"
    end /\
  base_from_symbol "BTC/USDT" = "BTC" /\
  base_from_symbol "eth-perp" = "ETH" /\
  base_from_symbol "A__B-C" = "A" /\
  base_from_symbol "" = "?".
Proof.
  split; [|repeat split].
  rewrite base_from_symbol_unfold. cbn zeta. rewrite nonempty_dashed.
  reflexivity.
Qed.

(** ** The platform resolver *)

Lemma norm_platform_label_lookup (raw : string) :
  norm_platform_label (Some raw) =
  match plat_lookup PLAT_MAP (clean_alnum raw) with
  | Some v => Some v
  | None => plat_scan PLAT_MAP (clean_alnum raw)
  end.
Proof. destruct raw; reflexivity. Qed.

Lemma plat_scan_find (m : list (string * string)) (key : string) :
  plat_scan m key = snd <$> find (fun kv => Py.str_in (fst kv) key) m.
Proof.
  induction m as [|[k v] r IH]; [reflexivity|]. cbn.
  destruct (Py.str_in k key); [reflexivity|exact IH].
Qed.

(** C7. The label is cleaned to its alphanumeric characters in lower case;
    a cleaned label that is a key of the alias table resolves to the
    platform of that key; otherwise it resolves to the platform of the
    first key of the table, in table order, that occurs in it as a
    substring; otherwise, and for a missing label, it is unresolved.
    ["zkLighter"] is Lighter, ["HyperliquidV2"] is Hyperliquid and ["dYdX"]
    is unresolved. *)
Theorem norm_platform_label_resolves (raw : string) :
  (forall k v, (k, v) ∈ PLAT_MAP -> clean_alnum raw = k ->
     norm_platform_label (Some raw) = Some v) /\
  ((forall k v, (k, v) ∈ PLAT_MAP -> clean_alnum raw <> k) ->
     norm_platform_label (Some raw) =
       snd <$> find (fun kv => Py.str_in (fst kv) (clean_alnum raw)) PLAT_MAP) /\
  ((forall k v, (k, v) ∈ PLAT_MAP -> Py.str_in k (clean_alnum raw) = false) ->
     norm_platform_label (Some raw) = None) /\
  norm_platform_label None = None /\
  clean_alnum "zk-Lighter (v2)" = "zklighterv2" /\
  norm_platform_label (Some "zkLighter") = Some "Lighter" /\
  norm_platform_label (Some "HyperliquidV2") = Some "Hyperliquid" /\
  norm_platform_label (Some "dYdX") = None.
Proof.
  split; [|split; [|split; [|repeat split]]].
  - intros k v Hin Hk. rewrite norm_platform_label_lookup, Hk.
    unfold PLAT_MAP in Hin.
    repeat (apply elem_of_cons in Hin as [[= -> ->]|Hin]; [reflexivity|]).
    inversion Hin.
  - intros Hne. rewrite norm_platform_label_lookup, <- plat_scan_find.
    destruct (plat_lookup PLAT_MAP (clean_alnum raw)) as [v|] eqn:E;
      [|reflexivity].
    exfalso. unfold PLAT_MAP in E, Hne. cbn [plat_lookup] in E.
    repeat match type of E with
    | (if String.eqb ?k ?x then _ else _) = _ =>
        destruct (String.eqb_spec k x) as [Hk|_];
        [eapply (Hne k); [|symmetry; exact Hk];
         repeat first [apply list_elem_of_here | apply list_elem_of_further]|]
    end.
    discriminate E.
  - intros Hno. rewrite norm_platform_label_lookup.
    assert (plat_scan PLAT_MAP (clean_alnum raw) = None) as Hscan.
    { unfold PLAT_MAP in *. cbn [plat_scan].
      repeat match goal with
      | |- (if Py.str_in ?k ?x then _ else _) = _ =>
          rewrite (Hno k _ ltac:(repeat first
            [apply list_elem_of_here | apply list_elem_of_further]))
      end. reflexivity. }
    rewrite Hscan.
    destruct (plat_lookup PLAT_MAP (clean_alnum raw)) as [v|] eqn:E;
      [|reflexivity].
    exfalso. unfold PLAT_MAP in E, Hno. cbn [plat_lookup] in E.
    repeat match type of E with
    | (if String.eqb ?k ?x then _ else _) = _ =>
        destruct (String.eqb_spec k x) as [Hk|_];
        [specialize (Hno k _ ltac:(repeat first
            [apply list_elem_of_here | apply list_elem_of_further]));
         rewrite <- Hk in Hno; discriminate Hno|]
    end.
    discriminate E.
Qed.

Lemma norm_platform_label_resolves_witness :
  (("zklighter", "Lighter") ∈ PLAT_MAP /\ clean_alnum "zkLighter" = "zklighter") /\
  norm_platform_label (Some "zkLighter") = Some "Lighter".
Proof.
  assert (("zklighter", "Lighter") ∈ PLAT_MAP) as Hin
    by (apply list_elem_of_further, list_elem_of_here).
  split; [split; [exact Hin|reflexivity]|].
  destruct (norm_platform_label_resolves "zkLighter") as [Hexact _].
  exact (Hexact "zklighter" "Lighter" Hin eq_refl).
Defined.

(** ** The reconciler *)

Lemma setdefault_lookup (base b : string) (t : table) :
  setdefault base t !! b =
  if decide (base = b) then Some (default ∅ (t !! base)) else t !! b.
Proof.
  unfold setdefault. destruct (t !! base) as [row|] eqn:E.
  - case_decide; subst; [exact E|reflexivity].
  - rewrite lookup_insert. case_decide; reflexivity.
Qed.

Lemma rate_of_setdefault (base b p : string) (t : table) :
  rate_of (setdefault base t) b p = rate_of t b p.
Proof.
  unfold rate_of. rewrite setdefault_lookup. case_decide; [subst|reflexivity].
  destruct (t !! b); reflexivity.
Qed.

Lemma rate_of_set_rate (base plat b p : string) (r : float) (t : table) :
  is_Some (t !! base) ->
  rate_of (set_rate base plat r t) b p =
  if decide (base = b /\ plat = p) then Some r else rate_of t b p.
Proof.
  intros [row Hrow]. unfold rate_of, set_rate. rewrite Hrow.
  rewrite lookup_insert. destruct (decide (base = b)) as [->|Hb].
  - rewrite Hrow, lookup_insert.
    destruct (decide (plat = p)) as [->|Hp]; case_decide; try tauto.
  - case_decide; [tauto|reflexivity].
Qed.

Lemma is_Some_setdefault (base : string) (t : table) :
  is_Some (setdefault base t !! base).
Proof. rewrite setdefault_lookup. case_decide; [eauto|tauto]. Qed.

Lemma rate_of_upsert (st : table * list string) (plat base b p : string)
    (r : float) :
  rate_of (fst (upsert st (plat, base, r))) b p =
  if decide (base = b /\ plat = p) then Some r else rate_of (fst st) b p.
Proof.
  destruct st as [t bl]. cbn.
  rewrite rate_of_set_rate by apply is_Some_setdefault.
  rewrite rate_of_setdefault. reflexivity.
Qed.

Lemma seeds_upsert (st : table * list string) (plat base : string) (r : float) :
  snd (upsert st (plat, base, r)) =
  if decide (plat = "Lighter" /\ base ∉ snd st) then snd st ++ [base]
  else snd st.
Proof.
  destruct st as [t bl]. cbn.
  destruct (String.eqb_spec plat "Lighter") as [->|Hp]; cbn.
  - destruct (decide (base ∈ bl)) as [Hin|Hin].
    + rewrite bool_decide_eq_true_2 by exact Hin. cbn.
      case_decide; [tauto|reflexivity].
    + rewrite bool_decide_eq_false_2 by exact Hin. cbn.
      case_decide; [reflexivity|tauto].
  - case_decide; [tauto|reflexivity].
Qed.

Lemma rate_of_fold (ts : list (string * string * float)) :
  forall st b p,
    rate_of (fst (fold_left upsert ts st)) b p =
    match last_rate ts b p with
    | Some r => Some r
    | None => rate_of (fst st) b p
    end.
Proof.
  induction ts as [|[[plat base] r] rest IH]; intros st b p; [reflexivity|].
  cbn [fold_left last_rate]. rewrite IH.
  destruct (last_rate rest b p); [reflexivity|].
  rewrite rate_of_upsert.
  destruct (String.eqb_spec plat p), (String.eqb_spec base b);
    case_decide; cbn; try reflexivity; tauto.
Qed.

Lemma filter_first_seen_in (bl l : list string) (b : string) :
  b ∈ bl ->
  filter (fun y => y ∉ bl) (filter (fun y => y <> b) l) =
  filter (fun y => y ∉ bl) l.
Proof.
  intros Hb. induction l as [|x l IH]; [reflexivity|].
  destruct (decide (x = b)) as [->|Hx].
  - rewrite (filter_cons_False (fun y => y <> b)) by tauto.
    rewrite (filter_cons_False (fun y => y ∉ bl)) by tauto. exact IH.
  - rewrite (filter_cons_True (fun y => y <> b)) by exact Hx.
    destruct (decide (x ∈ bl)).
    + rewrite !(filter_cons_False (fun y => y ∉ bl)) by tauto. exact IH.
    + rewrite !(filter_cons_True (fun y => y ∉ bl)) by tauto. f_equal. exact IH.
Qed.

Lemma filter_first_seen_app (bl l : list string) (b : string) :
  filter (fun y => y ∉ bl ++ [b]) l =
  filter (fun y => y ∉ bl) (filter (fun y => y <> b) l).
Proof.
  induction l as [|x l IH]; [reflexivity|].
  destruct (decide (x = b)) as [->|Hx].
  - rewrite (filter_cons_False (fun y => y <> b)) by tauto.
    rewrite filter_cons_False by (rewrite elem_of_app, list_elem_of_singleton; tauto).
    exact IH.
  - rewrite (filter_cons_True (fun y => y <> b)) by exact Hx.
    destruct (decide (x ∈ bl)).
    + rewrite (filter_cons_False (fun y => y ∉ bl)) by tauto.
      rewrite filter_cons_False by (rewrite elem_of_app; tauto). exact IH.
    + rewrite (filter_cons_True (fun y => y ∉ bl)) by tauto.
      rewrite filter_cons_True
        by (rewrite elem_of_app, list_elem_of_singleton; tauto).
      f_equal. exact IH.
Qed.

Lemma filter_fresh (l : list string) :
  filter (fun y => y ∉ @nil string) l = l.
Proof.
  induction l as [|x l IH]; [reflexivity|].
  rewrite filter_cons_True by apply not_elem_of_nil. f_equal. exact IH.
Qed.

Lemma lighter_bases_cons (plat base : string) (r : float)
    (rest : list (string * string * float)) :
  lighter_bases ((plat, base, r) :: rest) =
  if String.eqb plat "Lighter" then base :: lighter_bases rest
  else lighter_bases rest.
Proof.
  unfold lighter_bases. cbn. destruct (String.eqb plat "Lighter"); reflexivity.
Qed.

Lemma seeds_fold (ts : list (string * string * float)) :
  forall st,
    snd (fold_left upsert ts st) =
    snd st ++ filter (fun y => y ∉ snd st) (first_seen (lighter_bases ts)).
Proof.
  induction ts as [|[[plat base] r] rest IH]; intros st.
  - cbn. rewrite app_nil_r. reflexivity.
  - cbn [fold_left]. rewrite IH, seeds_upsert.
    rewrite lighter_bases_cons.
    destruct (String.eqb_spec plat "Lighter") as [->|Hp].
    + cbn [first_seen]. destruct (decide (base ∈ snd st)) as [Hin|Hin].
      * rewrite decide_False by tauto.
        rewrite filter_cons_False by tauto.
        rewrite filter_first_seen_in by exact Hin. reflexivity.
      * rewrite decide_True by tauto.
        rewrite filter_cons_True by exact Hin.
        rewrite filter_first_seen_app, <- app_assoc. reflexivity.
    + rewrite decide_False by tauto. reflexivity.
Qed.

Lemma first_seen_elem (l : list string) (b : string) :
  b ∈ first_seen l <-> b ∈ l.
Proof.
  induction l as [|x l IH]; [reflexivity|]. cbn.
  rewrite !elem_of_cons, list_elem_of_filter, IH.
  destruct (decide (b = x)); tauto.
Qed.

Lemma first_seen_NoDup (l : list string) : NoDup (first_seen l).
Proof.
  induction l as [|x l IH]; cbn; constructor.
  - rewrite list_elem_of_filter. tauto.
  - apply NoDup_filter, IH.
Qed.

Lemma last_rate_lighter (ts : list (string * string * float)) (b : string) :
  is_Some (last_rate ts b "Lighter") <-> b ∈ lighter_bases ts.
Proof.
  induction ts as [|[[plat base] r] rest IH].
  - cbn. split; [intros [? [=]]|inversion 1].
  - rewrite lighter_bases_cons. cbn [last_rate].
    destruct (last_rate rest b "Lighter") as [r'|] eqn:E.
    + assert (b ∈ lighter_bases rest) by (apply IH; eauto).
      split; [intros _|eauto].
      destruct (String.eqb plat "Lighter"); [apply elem_of_cons|]; auto.
    + assert (b ∉ lighter_bases rest) as Hn.
      { intros Hin. apply IH in Hin as [? [=]]. }
      destruct (String.eqb_spec plat "Lighter") as [->|Hp]; cbn.
      * rewrite elem_of_cons. destruct (String.eqb_spec base b) as [->|Hb].
        -- split; eauto.
        -- split; [intros [? [=]]|]. intros [->|]; tauto.
      * split; [intros [? [=]]|tauto].
Qed.

Section Reconciler.

Variable float_of_str : string -> option float.

Lemma agg_fold (nodes : list (value * path)) :
  forall st,
    fold_left (agg_step float_of_str) nodes st =
    fold_left upsert
      (omap (fun np : value * path =>
               match np with
               | (VDict d, path_keys) =>
                   accepted (extract_record float_of_str d path_keys)
               | _ => None
               end) nodes) st.
Proof.
  induction nodes as [|[v p] r IH]; intros st; [reflexivity|].
  cbn [fold_left]. rewrite IH.
  destruct v; try reflexivity. cbn.
  destruct (accepted _); reflexivity.
Qed.

Lemma reconcile_fold (data : value) :
  reconcile float_of_str data =
  fold_left upsert (accepted_triples float_of_str data) (∅, []).
Proof. apply agg_fold. Qed.

(** C5. Folding triples into the table leaves, for every pair of a base
    and a platform, the rate of the last triple written for that pair (and
    none when there is no such triple), whatever was written before: one
    write changes its own pair only. The seed list is the list of the bases
    written under Lighter, each at its first occurrence and none twice. The
    loop of [fetch_agg] is this fold over the accepted triples of the
    document. *)
Theorem reconcile_upserts (data : value) (ts : list (string * string * float)) :
  let st := fold_left upsert ts (∅, []) in
  (forall b p, rate_of (fst st) b p = last_rate ts b p) /\
  (forall plat base r b p,
     rate_of (fst (upsert st (plat, base, r))) b p =
     if decide (base = b /\ plat = p) then Some r else rate_of (fst st) b p) /\
  (forall plat base r1 r2,
     rate_of (fst (fold_left upsert (ts ++ [(plat, base, r1); (plat, base, r2)])
                     (∅, []))) base plat = Some r2) /\
  snd st = first_seen (lighter_bases ts) /\
  NoDup (snd st) /\
  (forall b, b ∈ snd st <-> exists r, ("Lighter", b, r) ∈ ts) /\
  reconcile float_of_str data =
    fold_left upsert (accepted_triples float_of_str data) (∅, []) /\
  first_seen ["BTC"; "ETH"; "BTC"; "SOL"; "ETH"] = ["BTC"; "ETH"; "SOL"].
Proof.
  cbn zeta.
  assert (snd (fold_left upsert ts (∅, [])) = first_seen (lighter_bases ts))
    as Hseeds by (rewrite seeds_fold; cbn [snd app]; apply filter_fresh).
  split; [|split; [|split; [|split; [|split; [|split; [|split]]]]]].
  - intros b p. rewrite rate_of_fold. destruct (last_rate ts b p);
      [reflexivity|]. unfold rate_of. cbn [fst]. rewrite lookup_empty.
    reflexivity.
  - intros. apply rate_of_upsert.
  - intros plat base r1 r2. rewrite fold_left_app. cbn [fold_left].
    rewrite rate_of_upsert. rewrite decide_True by tauto. reflexivity.
  - exact Hseeds.
  - rewrite Hseeds. apply first_seen_NoDup.
  - intros b. rewrite Hseeds, first_seen_elem. unfold lighter_bases.
    rewrite list_elem_of_omap. split.
    + intros ([[plat base] r] & Hin & Hb).
      destruct (String.eqb_spec plat "Lighter") as [->|]; [|discriminate Hb].
      injection Hb as ->. eauto.
    + intros [r Hin]. exists ("Lighter", b, r). split; [exact Hin|reflexivity].
  - apply reconcile_fold.
  - reflexivity.
Qed.

End Reconciler.

(** ** Latest-entry selection *)


Section Selection.

Local Open Scope float_scope.




Variable float_of_str : string -> option float.
Variable iso_timestamp : string -> option float.

Abbreviation view := (entry_view float_of_str iso_timestamp).
Abbreviation step := (latest_step float_of_str iso_timestamp).
Abbreviation loop := (latest_loop float_of_str iso_timestamp).
Abbreviation latest := (extract_paradex_latest float_of_str iso_timestamp).















End Selection.


(** A timestamp 0 is falsy in the chain of [or]: the second entry, stamped
    0, is given the synthetic timestamp 6 and wins over the entry stamped
    5. *)
Lemma extract_paradex_latest_zero_timestamp :
  entry_view rejects_all rejects_all (stamped 0.02 0) =
    Some (0.02%float, Ret None) /\
  extract_paradex_latest rejects_all rejects_all
    (VList [stamped 0.01 5; stamped 0.02 0]) = Ret (Some 0.02%float).
Proof. split; vm_compute; reflexivity. Qed.


(** ** The market probe and the probe loop *)

Lemma setdefault_keys (base b : string) (t : table) :
  is_Some (setdefault base t !! b) <-> b = base \/ is_Some (t !! b).
Proof.
  rewrite setdefault_lookup. case_decide; subst; [split; eauto|].
  split; [auto|]. intros [->|]; tauto.
Qed.


Lemma setdefault_fold_keys (bases : list string) :
  forall (t : table) b,
    is_Some (fold_left (fun t b => setdefault b t) bases t !! b) <->
    b ∈ bases \/ is_Some (t !! b).
Proof.
  induction bases as [|base r IH]; intros t b; cbn [fold_left].
  - split; [auto|]. intros [H|H]; [inversion H|exact H].
  - rewrite IH, setdefault_keys, elem_of_cons. tauto.
Qed.

Lemma setdefault_fold_rate (bases : list string) :
  forall (t : table) b p,
    rate_of (fold_left (fun t b => setdefault b t) bases t) b p = rate_of t b p.
Proof.
  induction bases as [|base r IH]; intros t b p; [reflexivity|].
  cbn [fold_left]. rewrite IH. apply rate_of_setdefault.
Qed.



Lemma tried_all (l : list (option float)) :
  first_some l = None -> tried l = length l.
Proof.
  induction l as [|[x|] l IH]; cbn; [reflexivity|discriminate|].
  intros H. rewrite IH by exact H. reflexivity.
Qed.

Section Probe.

Variable float_of_str : string -> option float.
Variable iso_timestamp : string -> option float.
Context {World : Type}.
Variable http_get : string -> World -> option response * World.

Abbreviation fetch := (fetch_paradex_latest_for_base float_of_str iso_timestamp http_get).
Abbreviation outcome := (probe_reply float_of_str iso_timestamp).

Lemma fetch_cons (base q : string) (qs : list string) (n : net) :
  fetch base (q :: qs) n =
  let '(r, n') := client_get http_get (PARADEX_URL (market base q)) n in
  match outcome r with
  | Some rate => (Some rate, n')
  | None => fetch base qs n'
  end.
Proof. reflexivity. Qed.

Lemma fetch_first_some (base : string) (quotes : list string) :
  forall n,
    fst (fetch base quotes n) =
    first_some (map outcome (replies http_get base quotes (world n))).
Proof.
  induction quotes as [|q qs IH]; intros n; [reflexivity|].
  rewrite fetch_cons. unfold client_get. cbn [replies].
  destruct (http_get _ (world n)) as [r w]. cbn [map first_some].
  destruct (outcome r); [reflexivity|]. rewrite IH. reflexivity.
Qed.

Lemma fetch_sent (base : string) (quotes : list string) :
  forall n,
    sent (snd (fetch base quotes n)) =
    sent n ++
    map (fun q => PARADEX_URL (market base q))
      (take (tried (map outcome (replies http_get base quotes (world n))))
         quotes).
Proof.
  induction quotes as [|q qs IH]; intros n.
  - cbn. rewrite app_nil_r. reflexivity.
  - rewrite fetch_cons. unfold client_get. cbn [replies].
    destruct (http_get _ (world n)) as [r w]. cbn [map tried].
    destruct (outcome r); [reflexivity|].
    rewrite IH. cbn. rewrite <- app_assoc. reflexivity.
Qed.

Lemma replies_length (base : string) (quotes : list string) :
  forall w, length (replies http_get base quotes w) = length quotes.
Proof.
  induction quotes as [|q qs IH]; intros w; [reflexivity|]. cbn [replies].
  destruct (http_get _ w) as [r w']. cbn. rewrite IH. reflexivity.
Qed.

(** C3. The probe asks for the markets [{BASE}-{QUOTE}-PERP] of the quotes
    in the order given. A request that raises, a 404, any other status
    that [raise_for_status] rejects, a body that is not JSON and a body
    without a rate all send it to the next quote. Its result is the rate
    of the first reply that has one, from that reply alone, and the
    requests sent are those up to and including that quote; it is none,
    after a request for every quote, when no reply has a rate. With the
    quotes USD and USDC, of which only USDC has a rate, two requests are
    sent, USD then USDC, and the rate is that of the USDC reply. *)
Theorem fetch_paradex_first_quote (base : string) (quotes : list string)
    (n : net) :
  let outcomes :=
    map outcome (replies http_get base quotes (world n)) in
  fst (fetch base quotes n) = first_some outcomes /\
  sent (snd (fetch base quotes n)) =
    sent n ++ map (fun q => PARADEX_URL (market base q))
                (take (tried outcomes) quotes) /\
  (first_some outcomes = None -> tried outcomes = length quotes) /\
  (forall q qs,
     fetch base (q :: qs) n =
     let '(r, n') := client_get http_get (PARADEX_URL (market base q)) n in
     match outcome r with
     | Some rate => (Some rate, n')
     | None => fetch base qs n'
     end) /\
  fetch base [] n = (None, n) /\
  market "BTC" "USD" = "BTC-USD-PERP" /\
  outcome None = None /\
  (forall r, status_code r = 404%Z -> outcome (Some r) = None) /\
  (forall r, raises_for_status r = true -> outcome (Some r) = None) /\
  (forall r, json r = None -> outcome (Some r) = None) /\
  (forall r1 w1 r2 w2 rate,
     http_get (PARADEX_URL (market base "USD")) (world n) = (r1, w1) ->
     outcome r1 = None ->
     http_get (PARADEX_URL (market base "USDC")) w1 = (r2, w2) ->
     outcome r2 = Some rate ->
     fetch base ["USD"; "USDC"] n =
       (Some rate,
        {| world := w2;
           sent := sent n ++ [PARADEX_URL (market base "USD");
                              PARADEX_URL (market base "USDC")] |})).
Proof.
  cbn zeta.
  split; [apply fetch_first_some|].
  split; [apply fetch_sent|].
  split; [intros H; rewrite (tried_all _ H), length_map; apply replies_length|].
  split; [reflexivity|].
  split; [reflexivity|].
  split; [reflexivity|].
  split; [reflexivity|].
  split; [intros r H; cbn; rewrite H; reflexivity|].
  split; [intros r H; cbn; rewrite H; destruct (_ =? _)%Z; reflexivity|].
  split; [intros r H; cbn; rewrite H;
          destruct (_ =? _)%Z, (raises_for_status r); reflexivity|].
  intros r1 w1 r2 w2 rate H1 O1 H2 O2.
  rewrite fetch_cons. unfold client_get. rewrite H1. cbn beta iota zeta.
  rewrite O1, fetch_cons. unfold client_get. cbn [world sent].
  rewrite H2. cbn beta iota zeta. rewrite O2, <- app_assoc. reflexivity.
Qed.





Lemma fetch_agg_reconciled (n n1 : net) (by_base : table)
    (bases_lighter : list string) :
  fetch_agg float_of_str http_get n = (Some (by_base, bases_lighter), n1) ->
  exists data, (by_base, bases_lighter) = reconcile float_of_str data.
Proof.
  unfold fetch_agg. destruct (client_get _ _ _) as [[r|] n'];
    [|intros [=]].
  destruct (raises_for_status r); [intros [=]|].
  destruct (json r) as [data|]; intros [= E _]. eauto.
Qed.


(** C9. When [fetch_agg] returns, the bases of the seed list are exactly
    the keys of the table whose row has a Lighter rate. *)
Theorem fetch_agg_seeds_cover_lighter (n n1 : net) (by_base : table)
    (bases_lighter : list string) :
  fetch_agg float_of_str http_get n = (Some (by_base, bases_lighter), n1) ->
  forall b,
    b ∈ bases_lighter <->
    exists row rate, by_base !! b = Some row /\ row !! "Lighter" = Some rate.
Proof.
  intros Hagg b.
  destruct (fetch_agg_reconciled _ _ _ _ Hagg) as [data Hdata].
  assert (bases_lighter = snd (reconcile float_of_str data)) as ->
    by (rewrite <- Hdata; reflexivity).
  assert (by_base = fst (reconcile float_of_str data)) as ->
    by (rewrite <- Hdata; reflexivity).
  rewrite reconcile_fold, seeds_fold. cbn [snd app].
  rewrite filter_fresh.
  rewrite first_seen_elem, <- last_rate_lighter.
  pose proof (rate_of_fold (accepted_triples float_of_str data) (∅, []) b
                "Lighter") as Hrate.
  unfold rate_of at 2 in Hrate. cbn [fst] in Hrate.
  rewrite lookup_empty in Hrate.
  assert (last_rate (accepted_triples float_of_str data) b "Lighter" =
          rate_of (fst (fold_left upsert (accepted_triples float_of_str data)
                          (∅, []))) b "Lighter") as ->
    by (rewrite Hrate; destruct (last_rate _ _ _); reflexivity).
  unfold rate_of.
  destruct (_ !! b) as [row|]; split.
  - intros [rate Hr]. eauto.
  - intros (row' & rate & [= <-] & Hr). eauto.
  - intros [? [=]].
  - intros (row' & rate & [=] & _).
Qed.

End Probe.

(** ** Instances *)

Lemma traverse_preorder_objects_witness :
  exists l1 l2,
    traverse (VDict [("a", VDict [("b", VDict [("c", VInt 1)])])]) [] =
    l1 ++ traverse (VDict [("b", VDict [("c", VInt 1)])]) ["a"] ++ l2.
Proof.
  destruct (traverse_preorder_objects
              (VDict [("a", VDict [("b", VDict [("c", VInt 1)])])]) [])
    as (_ & _ & _ & _ & _ & _ & _ & Hsub & _).
  apply Hsub. apply list_elem_of_further, list_elem_of_here.
Defined.

Lemma reconcile_upserts_witness :
  "BTC" ∈ snd (fold_left upsert
                 [("Lighter", "BTC", 0.001%float);
                  ("Hyperliquid", "BTC", 0.002%float)] (∅, [])).
Proof.
  destruct (reconcile_upserts rejects_all VNone
              [("Lighter", "BTC", 0.001%float);
               ("Hyperliquid", "BTC", 0.002%float)])
    as (_ & _ & _ & _ & _ & Hin & _).
  apply Hin. exists 0.001%float. apply list_elem_of_here.
Defined.



Lemma fetch_paradex_first_quote_witness :
  fetch_paradex_latest_for_base rejects_all rejects_all sample_get
    "BTC" ["USD"; "USDC"] sample_net =
  (Some 0.02%float,
   {| world := tt;
      sent := [PARADEX_URL "BTC-USD-PERP"; PARADEX_URL "BTC-USDC-PERP"] |}).
Proof.
  destruct (fetch_paradex_first_quote rejects_all rejects_all sample_get
              "BTC" ["USD"; "USDC"] sample_net)
    as (_ & _ & _ & _ & _ & _ & _ & _ & _ & _ & H).
  exact (H reply_404 tt (reply_ok sample_funding) tt 0.02%float
           eq_refl eq_refl eq_refl eq_refl).
Defined.


Lemma fetch_agg_seeds_cover_lighter_witness :
  fetch_agg rejects_all sample_get sample_net =
    (Some (fst (reconcile rejects_all sample_agg),
           snd (reconcile rejects_all sample_agg)),
     {| world := tt; sent := [API_AGG] |}) /\
  exists row rate,
    fst (reconcile rejects_all sample_agg) !! "ETH" = Some row /\
    row !! "Lighter" = Some rate.
Proof.
  assert (fetch_agg rejects_all sample_get sample_net =
          (Some (fst (reconcile rejects_all sample_agg),
                 snd (reconcile rejects_all sample_agg)),
           {| world := tt; sent := [API_AGG] |})) as Hagg
    by (vm_compute; reflexivity).
  split; [exact Hagg|].
  apply (fetch_agg_seeds_cover_lighter rejects_all sample_get _ _ _ _ Hagg).
  vm_compute. apply list_elem_of_further, list_elem_of_here.
Defined.

(** ** Further properties of the string helpers *)

Lemma char_cases (P : ascii -> Prop) :
  (forall b0 b1 b2 b3 b4 b5 b6 b7, P (Ascii b0 b1 b2 b3 b4 b5 b6 b7)) ->
  forall c, P c.
Proof. intros H []. apply H. Qed.

Ltac by_chars :=
  let c := fresh "c" in
  intros c; pattern c; apply char_cases;
  intros [] [] [] [] [] [] [] []; vm_compute; try reflexivity; try discriminate;
  auto.



Lemma upper_upper_char : forall c, Py.upper_char (Py.upper_char c) = Py.upper_char c.
Proof. by_chars. Qed.




Lemma ticker_char :
  forall c, Py.isupper c || Py.isdigit c = true ->
    Py.upper_char c = c /\ Ascii.eqb c "_" = false /\ Ascii.eqb c "/" = false /\
    Ascii.eqb c "-" = false /\ Py.isspace c = false.
Proof. by_chars. Qed.

Lemma map_str_map_str (f g : ascii -> ascii) (s : string) :
  Py.map_str f (Py.map_str g s) = Py.map_str (fun c => f (g c)) s.
Proof. induction s as [|c r IH]; cbn; [reflexivity|]. rewrite IH. reflexivity. Qed.

Lemma map_str_ext (f g : ascii -> ascii) (s : string) :
  (forall c, f c = g c) -> Py.map_str f s = Py.map_str g s.
Proof.
  intros H. induction s as [|c r IH]; cbn; [reflexivity|].
  rewrite H, IH. reflexivity.
Qed.



Lemma upper_upper (s : string) : Py.upper (Py.upper s) = Py.upper s.
Proof.
  unfold Py.upper. rewrite map_str_map_str. apply map_str_ext, upper_upper_char.
Qed.




Lemma all_map_str (p q : ascii -> bool) (f : ascii -> ascii) (s : string) :
  (forall c, p c = true -> q (f c) = true) ->
  all_str p s = true -> all_str q (Py.map_str f s) = true.
Proof.
  intros H. induction s as [|c r IH]; cbn; [reflexivity|].
  intros [Hc Hr]%andb_prop. rewrite (H _ Hc), (IH Hr). reflexivity.
Qed.






(** *** Substrings *)

Lemma append_cons (c : ascii) (a b : string) :
  (String c a ++ b = String c (a ++ b))%string.
Proof. reflexivity. Qed.

Lemma append_empty (b : string) : (EmptyString ++ b = b)%string.
Proof. reflexivity. Qed.

Lemma prefix_app (x s : string) :
  String.prefix x s = true <-> exists q, s = (x ++ q)%string.
Proof.
  revert s. induction x as [|a x IH]; intros s.
  - destruct s; cbn; (split; [intros _; eexists; reflexivity|reflexivity]).
  - destruct s as [|b s]; cbn; [split; [discriminate|intros [q [=]]]|].
    destruct (Ascii.ascii_dec a b) as [->|Hne].
    + rewrite IH. split; intros [q Hq]; exists q;
        rewrite append_cons in *; congruence.
    + split; [discriminate|]. intros [q [= Hab _]]. congruence.
Qed.

Lemma str_in_app (x s : string) :
  Py.str_in x s = true <-> exists p q, s = (p ++ x ++ q)%string.
Proof.
  induction s as [|c s IH]; cbn [Py.str_in].
  - rewrite orb_false_r, prefix_app. split.
    + intros [q Hq]. exists EmptyString, q. exact Hq.
    + intros (p & q & H). destruct p; [exists q; exact H|discriminate H].
  - rewrite orb_true_iff, prefix_app, IH. split.
    + intros [[q Hq]|(p & q & Hs)].
      * exists EmptyString, q. exact Hq.
      * exists (String c p), q. rewrite append_cons, Hs. reflexivity.
    + intros (p & q & H). destruct p as [|c' p].
      * left. exists q. exact H.
      * right. rewrite append_cons in H. injection H as _ H. eauto.
Qed.

Lemma append_assoc (a b c : string) :
  ((a ++ b) ++ c = a ++ (b ++ c))%string.
Proof.
  induction a as [|x a IH]; [reflexivity|].
  rewrite !append_cons, IH. reflexivity.
Qed.

Lemma str_in_trans (a b c : string) :
  Py.str_in a b = true -> Py.str_in b c = true -> Py.str_in a c = true.
Proof.
  rewrite !str_in_app. intros (p & q & ->) (p' & q' & ->).
  exists (p' ++ p)%string, (q ++ q')%string.
  rewrite !append_assoc. reflexivity.
Qed.

Lemma str_in_false (a b c : string) :
  Py.str_in a b = true -> Py.str_in a c = false -> Py.str_in b c = false.
Proof.
  intros Hab Hac. apply not_true_is_false. intros Hbc.
  rewrite (str_in_trans _ _ _ Hab Hbc) in Hac. discriminate Hac.
Qed.

(** ** Further properties of the platform resolver *)

Lemma norm_platform_label_words (s : string) :
  norm_platform_label (Some s) =
  if Py.str_in "lighter" (clean_alnum s) then Some "Lighter"
  else if Py.str_in "hyper" (clean_alnum s) then Some "Hyperliquid"
       else None.
Proof.
  rewrite norm_platform_label_lookup.
  generalize (clean_alnum s). intros key.
  unfold PLAT_MAP. cbn [plat_lookup plat_scan].
  repeat match goal with
  | |- context [String.eqb ?k key] =>
      destruct (String.eqb_spec k key) as [<-|_]; [reflexivity|]
  end.
  destruct (Py.str_in "lighter" key) eqn:Hl; [reflexivity|].
  rewrite (str_in_false "lighter" "zklighter" key eq_refl Hl).
  destruct (Py.str_in "hyper" key) eqn:Hh.
  - destruct (Py.str_in "hyperliquid" key); [reflexivity|].
    destruct (Py.str_in "hyperliquidv2" key); reflexivity.
  - rewrite (str_in_false "hyper" "hyperliquid" key eq_refl Hh).
    rewrite (str_in_false "hyper" "hyperliquidv2" key eq_refl Hh).
    reflexivity.
Qed.



(** ** Further properties of base extraction *)



Lemma map_str_app (f : ascii -> ascii) (a b : string) :
  Py.map_str f (a ++ b)%string = (Py.map_str f a ++ Py.map_str f b)%string.
Proof.
  induction a as [|c a IH]; [reflexivity|].
  rewrite append_cons. cbn [Py.map_str]. rewrite IH, append_cons. reflexivity.
Qed.

Lemma ticker_upper (b : string) :
  all_str (fun c => Py.isupper c || Py.isdigit c) b = true -> Py.upper b = b.
Proof.
  induction b as [|c b IH]; [reflexivity|]. cbn [all_str].
  intros [Hc Hb]%andb_prop. unfold Py.upper in *. cbn [Py.map_str].
  destruct (ticker_char c Hc) as (-> & _). rewrite (IH Hb). reflexivity.
Qed.

Lemma ticker_dashed (b r : string) :
  all_str (fun c => Py.isupper c || Py.isdigit c) b = true ->
  dashed (b ++ r)%string = (b ++ dashed r)%string.
Proof.
  induction b as [|c b IH]; [reflexivity|]. cbn [all_str].
  intros [Hc Hb]%andb_prop. destruct (ticker_char c Hc) as (_ & Hu & Hs & _).
  rewrite !append_cons, dashed_skip by exact Hu. unfold to_dash.
  rewrite Hs, (IH Hb). reflexivity.
Qed.

Lemma ticker_rstrip (b r : string) :
  all_str (fun c => Py.isupper c || Py.isdigit c) b = true ->
  Py.rstrip (b ++ r)%string = (b ++ Py.rstrip r)%string.
Proof.
  induction b as [|c b IH]; [reflexivity|]. cbn [all_str].
  intros [Hc Hb]%andb_prop. destruct (ticker_char c Hc) as (_ & _ & _ & _ & Hsp).
  rewrite !append_cons, rstrip_keep by exact Hsp. rewrite (IH Hb). reflexivity.
Qed.

Lemma ticker_lstrip (b r : string) :
  is_ticker b = true -> Py.lstrip (b ++ r)%string = (b ++ r)%string.
Proof.
  unfold is_ticker. destruct b as [|c b]; [discriminate|].
  cbn [Py.nonempty all_str andb]. intros [Hc _]%andb_prop. destruct (ticker_char c Hc) as (_ & _ & _ & _ & Hsp).
  rewrite append_cons. cbn [Py.lstrip]. rewrite Hsp. reflexivity.
Qed.

Lemma ticker_split (b r : string) :
  all_str (fun c => Py.isupper c || Py.isdigit c) b = true ->
  Py.split "-" (b ++ String "-" r)%string = b :: Py.split "-" r.
Proof.
  induction b as [|c b IH]; [reflexivity|]. cbn [all_str].
  intros [Hc Hb]%andb_prop. destruct (ticker_char c Hc) as (_ & _ & _ & Hd & _).
  rewrite append_cons, split_cons, Hd, (IH Hb). reflexivity.
Qed.

Lemma ticker_split_alone (b : string) :
  all_str (fun c => Py.isupper c || Py.isdigit c) b = true ->
  Py.split "-" b = [b].
Proof.
  induction b as [|c b IH]; [reflexivity|]. cbn [all_str].
  intros [Hc Hb]%andb_prop. destruct (ticker_char c Hc) as (_ & _ & _ & Hd & _).
  rewrite split_cons, Hd, (IH Hb). reflexivity.
Qed.

Lemma append_empty_r (a : string) : (a ++ EmptyString)%string = a.
Proof.
  induction a as [|c a IH]; [reflexivity|]. rewrite append_cons, IH. reflexivity.
Qed.

Lemma base_of_ticker_sep (b r : string) (sep : ascii) :
  is_ticker b = true -> sep = "-"%char \/ sep = "/"%char ->
  base_from_symbol (b ++ String sep r)%string = b.
Proof.
  intros Hb Hsep. pose proof Hb as Hb'. unfold is_ticker in Hb'.
  apply andb_prop in Hb' as [Hne Hall].
  unfold base_from_symbol. fold (dashed (Py.upper (b ++ String sep r))).
  unfold Py.upper. rewrite map_str_app. fold (Py.upper b).
  rewrite (ticker_upper _ Hall). cbn [Py.map_str].
  rewrite (ticker_dashed _ _ Hall).
  assert (exists r', dashed (String (Py.upper_char sep) (Py.map_str Py.upper_char r))
                     = String "-" r') as [r' ->].
  { destruct Hsep as [-> | ->]; change (Py.upper_char "-") with "-"%char;
      change (Py.upper_char "/") with "/"%char;
      rewrite dashed_skip by reflexivity; eexists; reflexivity. }
  unfold Py.strip. rewrite (ticker_lstrip _ _ Hb), (ticker_rstrip _ _ Hall).
  rewrite rstrip_keep by reflexivity. rewrite (ticker_split _ _ Hall).
  cbn zeta. rewrite filter_cons_True by exact Hne. reflexivity.
Qed.

Lemma base_of_ticker (b : string) :
  is_ticker b = true -> base_from_symbol b = b.
Proof.
  intros Hb. pose proof Hb as Hb'. unfold is_ticker in Hb'.
  apply andb_prop in Hb' as [Hne Hall].
  unfold base_from_symbol. fold (dashed (Py.upper b)).
  rewrite (ticker_upper _ Hall).
  pose proof (ticker_dashed b EmptyString Hall) as Hd.
  rewrite append_empty_r in Hd. change (dashed EmptyString) with EmptyString in Hd.
  rewrite append_empty_r in Hd. rewrite Hd.
  unfold Py.strip.
  pose proof (ticker_lstrip b EmptyString Hb) as Hl.
  rewrite append_empty_r in Hl. rewrite Hl.
  pose proof (ticker_rstrip b EmptyString Hall) as Hr.
  rewrite append_empty_r in Hr. change (Py.rstrip EmptyString) with EmptyString in Hr.
  rewrite append_empty_r in Hr. rewrite Hr.
  rewrite (ticker_split_alone _ Hall). cbn zeta.
  rewrite filter_cons_True by exact Hne. reflexivity.
Qed.

Lemma base_from_symbol_nonempty (symbol : string) :
  Py.nonempty (base_from_symbol symbol) = true.
Proof.
  unfold base_from_symbol. cbn zeta.
  destruct (filter _ _) as [|p ps] eqn:E.
  - destruct (Py.nonempty (Py.strip _)) eqn:En; [exact En|reflexivity].
  - assert (p ∈ p :: ps) as Hin by apply list_elem_of_here.
    rewrite <- E in Hin. apply list_elem_of_filter in Hin as [Hp _]. exact Hp.
Qed.


(** X5. A ticker of upper-case letters and digits is its own base, and it
    is the base of every symbol that continues it with ["-"] or ["/"]: in
    particular the market identifier that the probe builds for a base and
    a quote has that base. *)
Theorem base_from_symbol_of_market (base : string) :
  is_ticker base = true ->
  base_from_symbol base = base /\
  (forall rest, base_from_symbol (base ++ "-" ++ rest)%string = base) /\
  (forall rest, base_from_symbol (base ++ "/" ++ rest)%string = base) /\
  (forall q, base_from_symbol (market base q) = base).
Proof.
  intros Hb. split; [apply base_of_ticker, Hb|].
  split; [intros rest; apply base_of_ticker_sep; auto|].
  split; [intros rest; apply base_of_ticker_sep; auto|].
  intros q. unfold market. apply base_of_ticker_sep; auto.
Qed.

Lemma base_from_symbol_of_market_witness :
  is_ticker "BTC" = true /\ base_from_symbol (market "BTC" "USDC") = "BTC".
Proof.
  split; [reflexivity|].
  destruct (base_from_symbol_of_market "BTC" eq_refl) as (_ & _ & _ & H).
  apply H.
Defined.

(** ** Further properties of the tree walker *)

Lemma traverse_relocate (v : value) :
  forall p q,
    traverse v (p ++ q) =
    map (fun np => (fst np, p ++ snd np)) (traverse v q).
Proof.
  induction v as [| | | | |l IH|d IH] using value_nested_ind; intros p q;
    try reflexivity.
  - rewrite !traverse_list. generalize 0%nat.
    induction IH as [|v r Hv _ IHr]; intros n; cbn [traverse_elems map];
      [reflexivity|].
    rewrite map_app, <- IHr, <- Hv, <- app_assoc. reflexivity.
  - rewrite !traverse_dict. cbn [map fst snd]. f_equal.
    induction IH as [|[k v] r Hv _ IHr]; cbn [traverse_items map];
      [reflexivity|].
    cbn [snd] in Hv. rewrite map_app, <- IHr, <- Hv, <- app_assoc. reflexivity.
Qed.

(** X6. Walking a document from the path [p ++ q] yields the nodes that
    walking it from [q] yields, in the same order, each with [p] put before
    its path; so every yielded path continues the path the walk starts
    from. *)
Theorem traverse_paths_extend (node : value) (p q : path) :
  traverse node (p ++ q) =
    map (fun np => (fst np, p ++ snd np)) (traverse node q) /\
  map fst (traverse node p) = map fst (traverse node []) /\
  Forall (fun np => exists r, snd np = p ++ r) (traverse node p).
Proof.
  split; [apply traverse_relocate|].
  pose proof (traverse_relocate node p []) as H. rewrite app_nil_r in H.
  rewrite H. split.
  - rewrite map_map. reflexivity.
  - apply list.Forall_forall. intros np Hin.
    apply list_elem_of_fmap in Hin as (x & -> & _). cbn. eauto.
Qed.

(** ** Further properties of the normaliser and of record extraction *)

Lemma norm_platform_label_range (raw : option string) (p : string) :
  norm_platform_label raw = Some p -> p = "Lighter" \/ p = "Hyperliquid".
Proof.
  destruct raw as [raw|]; [|discriminate].
  rewrite norm_platform_label_words.
  destruct (Py.str_in "lighter" _); [intros [= <-]; auto|].
  destruct (Py.str_in "hyper" _); [intros [= <-]; auto|discriminate].
Qed.

Lemma norm_platform_label_truthy (raw : option string) :
  Py.truthy_str (norm_platform_label raw) =
  match norm_platform_label raw with Some _ => true | None => false end.
Proof.
  destruct (norm_platform_label raw) as [p|] eqn:E; [|reflexivity].
  apply norm_platform_label_range in E as [-> | ->]; reflexivity.
Qed.

Section Records.

Variable float_of_str : string -> option float.

Local Open Scope float_scope.

Abbreviation coerce := (coerce_rate float_of_str).
Abbreviation record := (extract_record float_of_str).
Abbreviation rate_step' := (rate_step float_of_str).

Lemma coerce_rate_bound (val : value) (y : float) :
  coerce val = Some y -> (0.5 <? abs y) = false.
Proof.
  unfold coerce_rate. destruct val; try discriminate;
    (destruct (py_float float_of_str _) as [x|]; [|discriminate]);
    cbn zeta; destruct (0.5 <? abs _) eqn:E; try discriminate;
    intros [= <-]; exact E.
Qed.



(** *** The three loops of [extract_record], one component at a time *)

Lemma direct_step_components (d : dict) :
  forall platform symbol rate,
    fold_left (direct_step float_of_str) d (platform, symbol, rate) =
    (fold_left platform_step d platform, fold_left symbol_step d symbol,
     fold_left rate_step' d rate).
Proof.
  induction d as [|[k v] r IH]; intros platform symbol rate; [reflexivity|].
  cbn [fold_left]. rewrite <- IH. f_equal.
  unfold direct_step, platform_step, symbol_step, rate_step. cbn [fst snd].
  destruct v; reflexivity.
Qed.

Lemma platform_fold (d : dict) :
  forall platform,
    (platform = None \/ Py.truthy_str platform = true) ->
    fold_left platform_step d platform =
    match platform with Some p => Some p | None => direct_platform d end.
Proof.
  induction d as [|[k v] r IH]; intros platform Hp.
  - destruct platform; reflexivity.
  - cbn [fold_left direct_platform]. unfold platform_step at 2. cbn [fst snd].
    destruct Hp as [->|Hp].
    + cbn [Py.truthy_str negb]. rewrite andb_true_r.
      destruct v; try (apply IH; auto).
      destruct (is_probable_platform_key k); [|apply IH; auto].
      rewrite IH.
      * destruct (norm_platform_label (Some s)); reflexivity.
      * rewrite norm_platform_label_truthy.
        destruct (norm_platform_label (Some s)); auto.
    + rewrite Hp. cbn [negb]. rewrite andb_false_r.
      assert (fold_left platform_step r platform =
              match platform with Some p => Some p | None => direct_platform r end)
        as Hr by (apply IH; auto).
      destruct v; rewrite Hr; destruct platform; try reflexivity; discriminate Hp.
Qed.

Lemma symbol_fold (d : dict) :
  forall symbol,
    Py.truthy_str symbol = false ->
    match direct_symbol d with
    | Some s => fold_left symbol_step d symbol = Some s
    | None => Py.truthy_str (fold_left symbol_step d symbol) = false
    end.
Proof.
  assert (forall r symbol, Py.truthy_str symbol = true ->
            fold_left symbol_step r symbol = symbol) as Hkeep.
  { induction r as [|[k v] r IH]; intros symbol Hs; [reflexivity|].
    cbn [fold_left]. unfold symbol_step at 2. cbn [fst snd]. rewrite Hs.
    cbn [negb]. rewrite andb_false_r. destruct v; apply IH, Hs. }
  induction d as [|[k v] r IH]; intros symbol Hs; [exact Hs|].
  cbn [fold_left direct_symbol]. unfold symbol_step at 2 4. cbn [fst snd].
  rewrite Hs. cbn [negb]. rewrite andb_true_r.
  destruct v; try (apply IH, Hs).
  destruct (is_probable_symbol_key k); [|apply IH, Hs]. cbn [andb].
  destruct (Py.nonempty s) eqn:En.
  - apply Hkeep. exact En.
  - apply IH. exact En.
Qed.

Lemma rate_fold (d : dict) :
  forall rate,
    fold_left rate_step' d rate =
    match rate with Some x => Some x | None => first_rate float_of_str d end.
Proof.
  induction d as [|[k v] r IH]; intros rate.
  - destruct rate; reflexivity.
  - cbn [fold_left first_rate]. rewrite IH. unfold rate_step. cbn [fst snd].
    destruct rate as [x|].
    + rewrite andb_false_r. reflexivity.
    + rewrite andb_true_r, (andb_comm (is_scalar v)).
      destruct (is_probable_rate_key k && is_scalar v); [|reflexivity].
      destruct (coerce v); reflexivity.
Qed.

Lemma path_platform_first (keys : list string) :
  path_platform keys = path_platform_of keys.
Proof.
  induction keys as [|key r IH]; [reflexivity|].
  cbn [path_platform path_platform_of].
  rewrite norm_platform_label_truthy, IH.
  destruct (norm_platform_label (Some key)); reflexivity.
Qed.

Lemma direct_symbol_nonempty (d : dict) (s : string) :
  direct_symbol d = Some s -> Py.nonempty s = true.
Proof.
  induction d as [|[k v] r IH]; [discriminate|]. cbn [direct_symbol].
  destruct v; auto. destruct (is_probable_symbol_key k); auto. cbn [andb].
  destruct (Py.nonempty s0) eqn:E; auto. intros H. inversion H. subst. exact E.
Qed.

Lemma nested_symbol_of_nonempty (vals : list value) (s : string) :
  nested_symbol_of vals = Some s -> Py.nonempty s = true.
Proof.
  induction vals as [|v r IH]; [discriminate|]. cbn [nested_symbol_of].
  destruct v; auto. destruct (first_symbol d) as [s0|]; auto.
  destruct (Py.nonempty s0) eqn:E; auto. intros H. inversion H. subst. exact E.
Qed.

Lemma direct_platform_range (d : dict) (p : string) :
  direct_platform d = Some p -> p = "Lighter" \/ p = "Hyperliquid".
Proof.
  induction d as [|[k v] r IH]; [discriminate|]. cbn [direct_platform].
  destruct v; auto. destruct (is_probable_platform_key k); auto.
  destruct (norm_platform_label (Some s)) eqn:En; auto.
  intros [= <-]. apply (norm_platform_label_range _ _ En).
Qed.

Lemma path_platform_of_range (keys : list string) (p : string) :
  path_platform_of keys = Some p -> p = "Lighter" \/ p = "Hyperliquid".
Proof.
  induction keys as [|key r IH]; [discriminate|]. cbn [path_platform_of].
  destruct (norm_platform_label (Some key)) eqn:En; auto.
  intros [= <-]. apply (norm_platform_label_range _ _ En).
Qed.

Lemma nested_symbol_first (vals : list value) :
  forall symbol,
    Py.truthy_str symbol = false ->
    match nested_symbol_of vals with
    | Some s => nested_symbol symbol vals = Some s
    | None => Py.truthy_str (nested_symbol symbol vals) = false
    end.
Proof.
  induction vals as [|v r IH]; intros symbol Hs; [exact Hs|].
  cbn [nested_symbol nested_symbol_of].
  destruct v; try (rewrite Hs; apply IH, Hs).
  destruct (first_symbol d) as [s|]; [|rewrite Hs; apply IH, Hs].
  cbn [Py.truthy_str]. destruct (Py.nonempty s) eqn:En; [reflexivity|].
  apply IH. exact En.
Qed.

Lemma extract_record_matches (d : dict) (path_keys : path) :
  record d path_keys =
  (match direct_platform d with
   | Some p => Some p
   | None => path_platform_of (rev path_keys)
   end,
   base_from_symbol <$>
     match direct_symbol d with
     | Some s => Some s
     | None => nested_symbol_of (map snd d)
     end,
   match first_rate float_of_str d with
   | Some x => Some x
   | None => nested_rate float_of_str (map snd d)
   end).
Proof.
  unfold extract_record. rewrite direct_step_components.
  rewrite platform_fold by auto. rewrite rate_fold.
  pose proof (symbol_fold d None eq_refl) as Hsym.
  f_equal; [f_equal|].
  - destruct (direct_platform d) as [p|] eqn:E.
    + apply direct_platform_range in E as [-> | ->]; reflexivity.
    + cbn [Py.truthy_str negb]. rewrite path_platform_first.
      destruct (path_platform_of _); reflexivity.
  - destruct (direct_symbol d) as [s|] eqn:E.
    + rewrite Hsym. cbn [Py.truthy_str].
      rewrite (direct_symbol_nonempty _ _ E). cbn [negb Py.truthy_str].
      rewrite (direct_symbol_nonempty _ _ E). reflexivity.
    + rewrite Hsym. cbn [negb].
      pose proof (nested_symbol_first (map snd d) _ Hsym) as Hn.
      destruct (nested_symbol_of (map snd d)) as [s|] eqn:E'.
      * rewrite Hn. cbn [Py.truthy_str].
        rewrite (nested_symbol_of_nonempty _ _ E'). reflexivity.
      * rewrite Hn. reflexivity.
  - destruct (first_rate float_of_str d); reflexivity.
Qed.

(** X8. [extract_record] takes, for each of its three fields, the first
    match in a fixed order of preference. The platform is the first string
    under a platform-like key that resolves, else the first resolving key
    of the path from the deepest up. The symbol is the first non-empty
    string under a symbol-like key, else the non-empty leading symbol of
    the first nested object that has one; the base is the base of that
    symbol. The rate is the first rate-like scalar that normalises, else
    the first such scalar one level down. *)
Theorem extract_record_first_matches (d : dict) (path_keys : path) :
  record d path_keys =
  (match direct_platform d with
   | Some p => Some p
   | None => path_platform_of (rev path_keys)
   end,
   base_from_symbol <$>
     match direct_symbol d with
     | Some s => Some s
     | None => nested_symbol_of (map snd d)
     end,
   match first_rate float_of_str d with
   | Some x => Some x
   | None => nested_rate float_of_str (map snd d)
   end).
Proof. apply extract_record_matches. Qed.

Lemma first_rate_bound (d : dict) (x : float) :
  first_rate float_of_str d = Some x -> (0.5 <? abs x) = false.
Proof.
  induction d as [|[k v] r IH]; [discriminate|]. cbn [first_rate].
  destruct (is_probable_rate_key k && is_scalar v); auto.
  destruct (coerce v) as [y|] eqn:E; auto.
  intros [= <-]. apply (coerce_rate_bound _ _ E).
Qed.

Lemma nested_rate_bound (vals : list value) (x : float) :
  nested_rate float_of_str vals = Some x -> (0.5 <? abs x) = false.
Proof.
  induction vals as [|v r IH]; [discriminate|]. cbn [nested_rate].
  destruct v; auto. destruct (first_rate float_of_str d) as [y|] eqn:E; auto.
  intros [= <-]. apply (first_rate_bound _ _ E).
Qed.

Lemma extract_record_ranges (d : dict) (path_keys : path)
    (pl b : option string) (r : option float) :
  record d path_keys = (pl, b, r) ->
  (forall p, pl = Some p -> p = "Lighter" \/ p = "Hyperliquid") /\
  (forall s, b = Some s -> Py.nonempty s = true) /\
  (forall x, r = Some x -> (0.5 <? abs x) = false).
Proof.
  rewrite extract_record_matches. intros [= <- <- <-].
  split; [|split].
  - intros p. destruct (direct_platform d) as [p'|] eqn:E.
    + intros [= <-]. apply (direct_platform_range _ _ E).
    + apply path_platform_of_range.
  - intros s. destruct (match direct_symbol d with Some _ => _ | None => _ end);
      [|discriminate]. intros [= <-]. apply base_from_symbol_nonempty.
  - intros x. destruct (first_rate float_of_str d) as [y|] eqn:E.
    + intros [= <-]. apply (first_rate_bound _ _ E).
    + apply nested_rate_bound.
Qed.

Lemma accepted_complete (d : dict) (path_keys : path) :
  accepted (record d path_keys) =
  match record d path_keys with
  | (Some plat, Some base, Some rate) => Some (plat, base, rate)
  | _ => None
  end.
Proof.
  destruct (record d path_keys) as [[pl b] r] eqn:E.
  destruct (extract_record_ranges _ _ _ _ _ E) as (Hp & Hb & Hr).
  destruct pl as [p|], b as [s|], r as [x|]; try reflexivity.
  cbn. rewrite (Hb s eq_refl).
  destruct (Hp p eq_refl) as [-> | ->]; reflexivity.
Qed.

Lemma accepted_ranges (d : dict) (path_keys : path) (plat base : string)
    (rate : float) :
  accepted (record d path_keys) = Some (plat, base, rate) ->
  (plat = "Lighter" \/ plat = "Hyperliquid") /\ base <> "" /\
  (0.5 <? abs rate) = false.
Proof.
  rewrite accepted_complete.
  destruct (record d path_keys) as [[pl b] r] eqn:E.
  destruct (extract_record_ranges _ _ _ _ _ E) as (Hp & Hb & Hr).
  destruct pl as [p|], b as [s|], r as [x|]; try discriminate.
  intros [= <- <- <-]. split; [auto|]. split; [|auto].
  specialize (Hb s eq_refl). destruct s; [discriminate Hb|discriminate].
Qed.

(** X9. A record is accepted exactly when its three fields are found:
    the platform of a record is Lighter or Hyperliquid or missing, its base
    is never empty and its rate never exceeds 0.5 in magnitude, so the
    tests on the platform name and on the empty base reject nothing
    more. *)
Theorem accepted_when_complete (d : dict) (path_keys : path) :
  accepted (record d path_keys) =
    match record d path_keys with
    | (Some plat, Some base, Some rate) => Some (plat, base, rate)
    | _ => None
    end /\
  (forall plat base rate,
     accepted (record d path_keys) = Some (plat, base, rate) ->
     (plat = "Lighter" \/ plat = "Hyperliquid") /\ base <> "" /\
     (0.5 <? abs rate) = false).
Proof.
  split; [apply accepted_complete|]. intros. eapply accepted_ranges; eauto.
Qed.

End Records.

Lemma accepted_when_complete_witness :
  accepted (extract_record rejects_all
              [("symbol", VStr "BTC-USD"); ("funding_rate", VFloat 0.001)]
              ["Lighter"; "0"]) = Some ("Lighter", "BTC", 0.001%float) /\
  (0.5 <? abs 0.001)%float = false.
Proof.
  assert (accepted (extract_record rejects_all
              [("symbol", VStr "BTC-USD"); ("funding_rate", VFloat 0.001)]
              ["Lighter"; "0"]) = Some ("Lighter", "BTC", 0.001%float)) as H
    by (vm_compute; reflexivity).
  split; [exact H|].
  destruct (accepted_when_complete rejects_all
              [("symbol", VStr "BTC-USD"); ("funding_rate", VFloat 0.001)]
              ["Lighter"; "0"]) as [_ Hr].
  destruct (Hr _ _ _ H) as (_ & _ & Hb). exact Hb.
Defined.


(** ** Further properties of the reconciler *)





Section Invariants.

Variable float_of_str : string -> option float.

Local Open Scope float_scope.



End Invariants.


(** ** Further properties of the probe and of [main] *)

Lemma sample_agg_fetched :
  fetch_agg rejects_all sample_get sample_net =
  (Some (fst (reconcile rejects_all sample_agg),
         snd (reconcile rejects_all sample_agg)),
   {| world := tt; sent := [API_AGG] |}).
Proof. rewrite <- surjective_pairing. reflexivity. Qed.

Section Budget.

Variable float_of_str : string -> option float.
Variable iso_timestamp : string -> option float.
Context {World : Type}.
Variable http_get : string -> World -> option response * World.

Abbreviation fetch' :=
  (fetch_paradex_latest_for_base float_of_str iso_timestamp http_get).
Abbreviation probes := (probe_bases float_of_str iso_timestamp http_get).
Abbreviation run := (main float_of_str iso_timestamp http_get).
Abbreviation agg := (fetch_agg float_of_str http_get).

Lemma fetch_more_quotes (base : string) (quotes extra : list string) :
  forall n r,
    fst (fetch' base quotes n) = Some r ->
    fetch' base (quotes ++ extra) n = fetch' base quotes n.
Proof.
  induction quotes as [|q qs IH]; intros n r; [discriminate|].
  cbn [app]. rewrite !fetch_cons.
  destruct (client_get http_get _ n) as [rep n'].
  destruct (probe_reply float_of_str iso_timestamp rep); [reflexivity|].
  apply IH.
Qed.

(** X11. Once a list of quotes gives a rate, quotes added after them
    change neither the rate nor the requests sent: a fallback quote is
    asked only when all the quotes before it have failed. *)
Theorem fetch_paradex_fallback_unused (base : string)
    (quotes extra : list string) (n : net) (r : float) :
  fst (fetch' base quotes n) = Some r ->
  fetch' base (quotes ++ extra) n = fetch' base quotes n.
Proof. apply fetch_more_quotes. Qed.

Lemma fetch_requests (base : string) (qs : list string) (n : net) :
  exists L,
    sent (snd (fetch' base qs n)) = sent n ++ L /\
    length L <= length qs /\
    Forall (probe_url [base] qs) L.
Proof.
  rewrite fetch_sent. eexists. split; [reflexivity|]. split.
  - rewrite length_map, length_take. lia.
  - apply list.Forall_forall. intros u Hu.
    apply list_elem_of_fmap in Hu as (q & -> & Hq).
    exists base, q. split; [apply list_elem_of_here|]. split; [|reflexivity].
    apply list_elem_of_lookup in Hq as [i Hi].
    apply lookup_take_Some in Hi as [Hi _].
    apply list_elem_of_lookup. eauto.
Qed.

Lemma probe_requests (qs bases : list string) :
  forall t n,
    exists L,
      sent (snd (probes qs bases t n)) = sent n ++ L /\
      length L <= length bases * length qs /\
      Forall (probe_url bases qs) L.
Proof.
  induction bases as [|base r IH]; intros t n; cbn [probe_bases].
  - exists []. rewrite app_nil_r. repeat split; [cbn; lia|constructor].
  - destruct (fetch_requests base qs n) as (L1 & H1 & Hlen1 & Hall1).
    destruct (fetch' base qs n) as [rate n']. cbn [snd] in H1.
    match goal with
    | |- context [probe_bases _ _ _ qs r ?t' n'] =>
        destruct (IH t' n') as (L2 & H2 & Hlen2 & Hall2)
    end.
    exists (L1 ++ L2). rewrite H2, H1, <- app_assoc.
    split; [reflexivity|]. split; [rewrite length_app; cbn; lia|].
    apply Forall_app. split.
    + eapply Forall_impl; [exact Hall1|]. intros u (b & q & Hb & Hq & ->).
      exists b, q. split; [|auto]. apply list_elem_of_singleton in Hb as ->.
      apply list_elem_of_here.
    + eapply Forall_impl; [exact Hall2|]. intros u (b & q & Hb & Hq & ->).
      exists b, q. split; [apply list_elem_of_further, Hb|auto].
Qed.

Lemma fetch_agg_sent (n : net) : sent (snd (agg n)) = sent n ++ [API_AGG].
Proof.
  unfold fetch_agg, client_get.
  destruct (http_get API_AGG (world n)) as [r w]. reflexivity.
Qed.

(** X12. [main] sends the aggregator request first and then only probe
    requests, each for the market of a probed base and a given quote, at
    most one for every pair of a probed base and a quote; when the
    aggregator fetch fails the aggregator request is the only one. *)
Theorem main_request_budget (a : args) (n : net) :
  exists L,
    sent (snd (run a n)) = sent n ++ API_AGG :: L /\
    (fst (run a n) = None -> L = []) /\
    (forall by_base bases_lighter n1,
       agg n = (Some (by_base, bases_lighter), n1) ->
       let bases := snd (probed_bases a by_base bases_lighter) in
       let qs := comma_list (quotes a) in
       length L <= length bases * length qs /\
       Forall (probe_url bases qs) L).
Proof.
  unfold main. pose proof (fetch_agg_sent n) as Hagg.
  destruct (agg n) as [[[by_base bases_lighter]|] n1]; cbn [snd] in Hagg.
  - destruct (probed_bases a by_base bases_lighter) as [t0 bases] eqn:Hpb.
    destruct (probe_requests (comma_list (quotes a)) bases t0 n1)
      as (L & HL & Hlen & Hall).
    destruct (probes _ bases t0 n1) as [t n']. cbn [snd fst] in *.
    exists L. rewrite HL, Hagg, <- app_assoc.
    split; [reflexivity|]. split; [discriminate|].
    intros bb bl n1' [= <- <- <-]. rewrite Hpb. cbn [snd]. auto.
  - exists []. cbn [snd fst]. rewrite Hagg.
    split; [reflexivity|]. split; [reflexivity|]. discriminate.
Qed.

Lemma probes_keep (qs bases : list string) :
  forall t n b p,
    p <> "Paradex" \/ b ∉ bases ->
    rate_of (fst (probes qs bases t n)) b p = rate_of t b p.
Proof.
  induction bases as [|base r IH]; intros t n b p Hbp; [reflexivity|].
  cbn [probe_bases]. destruct (fetch' base qs n) as [rate n'].
  rewrite IH by (rewrite not_elem_of_cons in Hbp; tauto).
  destruct rate as [x|]; [|apply rate_of_setdefault].
  rewrite rate_of_set_rate by apply is_Some_setdefault.
  rewrite rate_of_setdefault. case_decide as Hd; [|reflexivity].
  destruct Hd as [-> <-]. destruct Hbp as [Hp|Hb]; [congruence|].
  exfalso. apply Hb, list_elem_of_here.
Qed.

Lemma main_unfold (a : args) (n n1 : net) (by_base : table)
    (bases_lighter : list string) :
  agg n = (Some (by_base, bases_lighter), n1) ->
  let pb := probed_bases a by_base bases_lighter in
  let res := probes (comma_list (quotes a)) (snd pb) (fst pb) n1 in
  run a n = (Some (fst res), snd res).
Proof.
  intros Hagg. cbn zeta. unfold main. rewrite Hagg.
  destruct (probed_bases a by_base bases_lighter) as [t0 bases].
  cbn [fst snd]. destruct (probes _ bases t0 n1). reflexivity.
Qed.

(** X13. Probing never touches what the aggregator gave: after [main],
    the Lighter and Hyperliquid rates, and every rate other than a Paradex
    one, are those of the table of [fetch_agg]. *)
Theorem main_keeps_aggregator_rates (a : args) (n n1 n' : net)
    (by_base t : table) (bases_lighter : list string) :
  agg n = (Some (by_base, bases_lighter), n1) ->
  run a n = (Some t, n') ->
  forall b p, p <> "Paradex" -> rate_of t b p = rate_of by_base b p.
Proof.
  intros Hagg. unfold main. rewrite Hagg.
  destruct (probed_bases a by_base bases_lighter) as [t0 bases] eqn:Hpb.
  destruct (probes _ bases t0 n1) as [t' n''] eqn:Hprobe.
  intros [= <- <-] b p Hp.
  replace t' with (fst (probes (comma_list (quotes a)) bases t0 n1))
    by (rewrite Hprobe; reflexivity).
  rewrite probes_keep by auto.
  unfold probed_bases in Hpb.
  destruct (Py.nonempty (Py.strip (only_bases a))); injection Hpb as <- _;
    [apply setdefault_fold_rate|reflexivity].
Qed.

End Budget.

Lemma fetch_paradex_fallback_unused_witness :
  fst (fetch_paradex_latest_for_base rejects_all rejects_all sample_get
         "BTC" ["USD"; "USDC"] sample_net) = Some 0.02%float /\
  fetch_paradex_latest_for_base rejects_all rejects_all sample_get
    "BTC" (["USD"; "USDC"] ++ ["USDT"]) sample_net =
  fetch_paradex_latest_for_base rejects_all rejects_all sample_get
    "BTC" ["USD"; "USDC"] sample_net.
Proof.
  assert (fst (fetch_paradex_latest_for_base rejects_all rejects_all sample_get
                 "BTC" ["USD"; "USDC"] sample_net) = Some 0.02%float) as H
    by (vm_compute; reflexivity).
  split; [exact H|].
  exact (fetch_paradex_fallback_unused rejects_all rejects_all sample_get
           "BTC" ["USD"; "USDC"] ["USDT"] sample_net _ H).
Defined.

Lemma main_request_budget_witness :
  let bases :=
    snd (probed_bases sample_args (fst (reconcile rejects_all sample_agg))
           (snd (reconcile rejects_all sample_agg))) in
  exists L,
    sent (snd (main rejects_all rejects_all sample_get sample_args sample_net))
      = API_AGG :: L /\
    length L <= length bases * length (comma_list "USD,USDC").
Proof.
  destruct (main_request_budget rejects_all rejects_all sample_get
              sample_args sample_net) as (L & HL & _ & Hb).
  exists L. split; [exact HL|].
  exact (proj1 (Hb _ _ _ sample_agg_fetched)).
Defined.

Lemma main_keeps_aggregator_rates_witness :
  let pb := probed_bases sample_args (fst (reconcile rejects_all sample_agg))
              (snd (reconcile rejects_all sample_agg)) in
  let res := probe_bases rejects_all rejects_all sample_get
               (comma_list "USD,USDC") (snd pb) (fst pb)
               {| world := tt; sent := [API_AGG] |} in
  rate_of (fst res) "BTC" "Lighter" =
  rate_of (fst (reconcile rejects_all sample_agg)) "BTC" "Lighter".
Proof.
  intros pb res.
  exact (main_keeps_aggregator_rates rejects_all rejects_all sample_get
           sample_args sample_net _ (snd res) _ (fst res) _
           sample_agg_fetched
           (main_unfold rejects_all rejects_all sample_get sample_args
              sample_net _ _ _ sample_agg_fetched)
           "BTC" "Lighter" ltac:(discriminate)).
Defined.

(** ** The command-line lists and the probed bases *)

Lemma split_pieces (sep : ascii) (s x : string) :
  x ∈ Py.split sep s -> all_str (fun c => negb (Ascii.eqb c sep)) x = true.
Proof.
  revert x. induction s as [|c r IH]; intros x; cbn [Py.split].
  - intros ->%list_elem_of_singleton. reflexivity.
  - destruct (Ascii.eqb c sep) eqn:E.
    + intros [->|Hx]%elem_of_cons; [reflexivity|apply IH, Hx].
    + destruct (Py.split sep r) as [|t ts].
      * intros ->%list_elem_of_singleton. cbn. rewrite E. reflexivity.
      * intros [->|Hx]%elem_of_cons.
        -- cbn. rewrite E. apply IH, list_elem_of_here.
        -- apply IH, list_elem_of_further, Hx.
Qed.

Lemma all_str_lstrip (p : ascii -> bool) (s : string) :
  all_str p s = true -> all_str p (Py.lstrip s) = true.
Proof.
  induction s as [|c r IH]; [reflexivity|]. cbn [Py.lstrip].
  destruct (Py.isspace c); [|auto]. cbn [all_str].
  intros [_ Hr]%andb_prop. apply IH, Hr.
Qed.

Lemma all_str_rstrip (p : ascii -> bool) (s : string) :
  all_str p s = true -> all_str p (Py.rstrip s) = true.
Proof.
  induction s as [|c r IH]; [reflexivity|]. cbn [all_str].
  intros [Hc Hr]%andb_prop. rewrite rstrip_cons. specialize (IH Hr).
  destruct (Py.rstrip r).
  - destruct (Py.isspace c); [reflexivity|]. cbn. rewrite Hc. reflexivity.
  - cbn [all_str]. rewrite Hc. exact IH.
Qed.

Lemma lstrip_head (s r : string) (c : ascii) :
  Py.lstrip s = String c r -> Py.isspace c = false.
Proof.
  induction s as [|a s IH]; [discriminate|]. cbn [Py.lstrip].
  destruct (Py.isspace a) eqn:E; [exact IH|]. intros [= <- _]. exact E.
Qed.

Lemma rstrip_rstrip (s : string) : Py.rstrip (Py.rstrip s) = Py.rstrip s.
Proof.
  induction s as [|c r IH]; [reflexivity|]. rewrite rstrip_cons.
  destruct (Py.rstrip r) as [|x X] eqn:E.
  - destruct (Py.isspace c) eqn:Ec; [reflexivity|]. cbn. rewrite Ec. reflexivity.
  - rewrite rstrip_cons, IH. reflexivity.
Qed.

Lemma strip_strip (s : string) : Py.strip (Py.strip s) = Py.strip s.
Proof.
  unfold Py.strip. destruct (Py.lstrip s) as [|c t] eqn:E; [reflexivity|].
  apply lstrip_head in E. rewrite rstrip_keep by exact E.
  cbn [Py.lstrip]. rewrite E, rstrip_keep by exact E.
  rewrite rstrip_rstrip. reflexivity.
Qed.

Lemma isspace_upper_char : forall c, Py.isspace (Py.upper_char c) = Py.isspace c.
Proof. by_chars. Qed.

Lemma comma_upper_char :
  forall c, Ascii.eqb (Py.upper_char c) "," = Ascii.eqb c ",".
Proof. by_chars. Qed.

Lemma lstrip_map_str (f : ascii -> ascii) (s : string) :
  (forall c, Py.isspace (f c) = Py.isspace c) ->
  Py.lstrip (Py.map_str f s) = Py.map_str f (Py.lstrip s).
Proof.
  intros H. induction s as [|c r IH]; [reflexivity|].
  cbn [Py.map_str Py.lstrip]. rewrite H.
  destruct (Py.isspace c); [exact IH|reflexivity].
Qed.

Lemma rstrip_map_str (f : ascii -> ascii) (s : string) :
  (forall c, Py.isspace (f c) = Py.isspace c) ->
  Py.rstrip (Py.map_str f s) = Py.map_str f (Py.rstrip s).
Proof.
  intros H. induction s as [|c r IH]; [reflexivity|].
  cbn [Py.map_str]. rewrite !rstrip_cons, IH, H.
  destruct (Py.rstrip r); [destruct (Py.isspace c)|]; reflexivity.
Qed.

Lemma strip_upper (s : string) : Py.strip (Py.upper s) = Py.upper (Py.strip s).
Proof.
  unfold Py.strip, Py.upper.
  rewrite lstrip_map_str, rstrip_map_str by apply isspace_upper_char.
  reflexivity.
Qed.

Lemma nonempty_map_str (f : ascii -> ascii) (s : string) :
  Py.nonempty (Py.map_str f s) = Py.nonempty s.
Proof. destruct s; reflexivity. Qed.

(** X14. Every element of a comma-separated command-line list, as [main]
    reads it, is non-empty, free of commas, trimmed and in upper case. *)
Theorem comma_list_normalised (s x : string) :
  x ∈ comma_list s ->
  x <> "" /\ all_str (fun c => negb (Ascii.eqb c ",")) x = true /\
  Py.strip x = x /\ Py.upper x = x.
Proof.
  unfold comma_list. intros Hx.
  apply list_elem_of_fmap in Hx as (y & -> & Hy).
  apply list_elem_of_filter in Hy as [Hne Hy].
  apply split_pieces in Hy.
  split; [|split; [|split]].
  - intros Heq.
    assert (Py.nonempty (Py.upper (Py.strip y)) = true) as Hup
      by (unfold Py.upper; rewrite nonempty_map_str; exact Hne).
    rewrite Heq in Hup. discriminate Hup.
  - apply (all_map_str (fun c => negb (Ascii.eqb c ","))).
    + intros c Hc. rewrite comma_upper_char. exact Hc.
    + apply all_str_rstrip, all_str_lstrip, Hy.
  - rewrite strip_upper, strip_strip. reflexivity.
  - apply upper_upper.
Qed.

Lemma comma_list_normalised_witness :
  "USDC" ∈ comma_list " usd, usdc ,," /\ Py.strip "USDC" = "USDC".
Proof.
  assert ("USDC" ∈ comma_list " usd, usdc ,,") as H
    by (apply list_elem_of_further, list_elem_of_here).
  split; [exact H|].
  exact (proj1 (proj2 (proj2 (comma_list_normalised _ _ H)))).
Defined.

(** X15. The bases that [main] probes are the first [--limit] bases, or
    all of them when the limit is not positive, of the list given with
    [--only-bases], or of the seed list when that option is blank. The
    table keeps all its rates; with [--only-bases] every listed base gets a
    row, also a base that the limit cuts off, and without it the table is
    left as it is. *)
Theorem probed_bases_limit (a : args) (by_base : table)
    (bases_lighter : list string) :
  let source :=
    if Py.nonempty (Py.strip (only_bases a)) then comma_list (only_bases a)
    else bases_lighter in
  let t := fst (probed_bases a by_base bases_lighter) in
  let bases := snd (probed_bases a by_base bases_lighter) in
  (exists rest, source = bases ++ rest) /\
  ((0 < limit a)%Z -> length bases <= Z.to_nat (limit a)) /\
  ((limit a <= 0)%Z -> bases = source) /\
  (forall b p, rate_of t b p = rate_of by_base b p) /\
  (forall b, is_Some (by_base !! b) -> is_Some (t !! b)) /\
  (Py.nonempty (Py.strip (only_bases a)) = true ->
   forall b, b ∈ comma_list (only_bases a) -> is_Some (t !! b)) /\
  (Py.nonempty (Py.strip (only_bases a)) = false -> t = by_base).
Proof.
  cbn zeta. unfold probed_bases.
  destruct (Py.nonempty (Py.strip (only_bases a))); cbn [fst snd].
  all: split; [destruct (0 <? limit a)%Z;
               [eexists; symmetry; apply take_drop
               |exists []; rewrite app_nil_r; reflexivity]|].
  all: split; [intros Hl; apply Z.ltb_lt in Hl; rewrite Hl, length_take; lia|].
  all: split; [intros Hl; apply Z.ltb_ge in Hl; rewrite Hl; reflexivity|].
  - split; [intros; apply setdefault_fold_rate|].
    split; [intros b Hb; apply setdefault_fold_keys; auto|].
    split; [intros _ b Hb; apply setdefault_fold_keys; auto|discriminate].
  - split; [reflexivity|]. split; [auto|]. split; [discriminate|reflexivity].
Qed.

Lemma probed_bases_limit_witness :
  (0 < 1)%Z /\
  length (snd (probed_bases
                 {| only_bases := "btc, eth"; limit := 1; quotes := "USD";
                    sleep_ms := 0; paradex_verbose := false;
                    agg_debug := false |} ∅ [])) <= Z.to_nat 1.
Proof.
  split; [reflexivity|].
  destruct (probed_bases_limit
              {| only_bases := "btc, eth"; limit := 1; quotes := "USD";
                 sleep_ms := 0; paradex_verbose := false;
                 agg_debug := false |} ∅ []) as (_ & Hlen & _).
  apply Hlen. reflexivity.
Defined.

(** ** Further properties of the Paradex readers *)

Lemma lstrip_app (s t : string) (c : ascii) :
  Py.isspace c = false ->
  Py.lstrip (s ++ String c t)%string = (Py.lstrip s ++ String c t)%string.
Proof.
  intros Hc. induction s as [|a s IH].
  - cbn [Py.lstrip]. rewrite !append_empty. cbn [Py.lstrip].
    rewrite Hc. reflexivity.
  - rewrite append_cons. cbn [Py.lstrip].
    destruct (Py.isspace a); [exact IH|]. rewrite append_cons. reflexivity.
Qed.

Lemma rstrip_app (u t : string) :
  Py.rstrip t = t -> t <> "" -> Py.rstrip (u ++ t)%string = (u ++ t)%string.
Proof.
  intros Ht Hne. induction u as [|c u IH]; [exact Ht|].
  rewrite append_cons, rstrip_cons, IH.
  destruct (u ++ t)%string eqn:E; [|reflexivity].
  destruct u; [contradiction|discriminate E].
Qed.

Lemma chop_Z_app (u : string) : chop_Z (u ++ "Z")%string = Some u.
Proof.
  induction u as [|c u IH]; [reflexivity|].
  rewrite append_cons. cbn [chop_Z]. rewrite IH.
  destruct (u ++ "Z")%string eqn:E; [destruct u; discriminate E|reflexivity].
Qed.

Lemma chop_Z_offset (u : string) : chop_Z (u ++ "+00:00")%string = None.
Proof.
  induction u as [|c u IH]; [reflexivity|].
  rewrite append_cons. cbn [chop_Z]. rewrite IH.
  destruct (u ++ "+00:00")%string eqn:E; [destruct u; discriminate E|reflexivity].
Qed.

Section Readers.

Variable float_of_str : string -> option float.
Variable iso_timestamp : string -> option float.

Abbreviation parse_ts := (_parse_ts float_of_str iso_timestamp).
Abbreviation view' := (entry_view float_of_str iso_timestamp).
Abbreviation loop' := (latest_loop float_of_str iso_timestamp).
Abbreviation latest' := (extract_paradex_latest float_of_str iso_timestamp).
Abbreviation rated := (is_rated float_of_str).

Lemma parse_ts_raises (v : value) :
  parse_ts v = Raise <-> exists z, v = VInt z /\ float_of_Z z = None.
Proof.
  split.
  - destruct v as [|b|z|f|s0|l|d]; cbn; try discriminate.
    destruct (float_of_Z z) eqn:E; [discriminate|]. eauto.
  - intros (z & -> & Hz). cbn. rewrite Hz. reflexivity.
Qed.

(** X16. [_parse_ts] raises exactly on an integer too large for a float.
    A string is read without its surrounding whitespace, and a final ["Z"]
    makes it the string with the offset ["+00:00"] in its place. *)
Theorem parse_ts_readings (v : value) (s : string) :
  (parse_ts v = Raise <-> exists z, v = VInt z /\ float_of_Z z = None) /\
  parse_ts (VStr (s ++ "Z")) = parse_ts (VStr (s ++ "+00:00")) /\
  parse_ts (VStr (Py.strip s)) = parse_ts (VStr s).
Proof.
  split; [apply parse_ts_raises|]. split.
  - cbn [_parse_ts]. unfold Py.strip.
    rewrite !lstrip_app by reflexivity.
    rewrite !rstrip_app by (reflexivity || discriminate).
    rewrite chop_Z_app, chop_Z_offset. reflexivity.
  - cbn [_parse_ts]. rewrite strip_strip. reflexivity.
Qed.







(** X18. The entries are read from a bare list, or from the first of the
    keys [data], [results] and [items] of an object that holds a truthy
    value, which must be a list: a non-empty list under [data] is read
    whatever else the object holds, a falsy value there passes the turn to
    [results] and then [items], a truthy value under [data] that is not a
    list yields no rate whatever the other keys hold, and so does a payload
    that is neither a list nor an object. *)
Theorem extract_paradex_latest_payloads (d : dict) (it : value)
    (l : list value) :
  (dict_get d "data" = VList (it :: l) ->
   latest' (VDict d) = latest' (VList (it :: l))) /\
  (truthy (dict_get d "data") = false ->
   dict_get d "results" = VList (it :: l) ->
   latest' (VDict d) = latest' (VList (it :: l))) /\
  (truthy (dict_get d "data") = false ->
   truthy (dict_get d "results") = false ->
   dict_get d "items" = VList (it :: l) ->
   latest' (VDict d) = latest' (VList (it :: l))) /\
  (truthy (dict_get d "data") = true ->
   (forall l', dict_get d "data" <> VList l') ->
   latest' (VDict d) = Ret None) /\
  (forall b z f s,
     latest' VNone = Ret None /\ latest' (VBool b) = Ret None /\
     latest' (VInt z) = Ret None /\ latest' (VFloat f) = Ret None /\
     latest' (VStr s) = Ret None /\ latest' (VList []) = Ret None /\
     latest' (VDict []) = Ret None).
Proof.
  split; [|split; [|split; [|split]]].
  - intros H. unfold extract_paradex_latest, paradex_items, por.
    rewrite H. reflexivity.
  - intros H1 H2. unfold extract_paradex_latest, paradex_items, por.
    rewrite H1, H2. reflexivity.
  - intros H1 H2 H3. unfold extract_paradex_latest, paradex_items, por.
    rewrite H1, H2, H3. reflexivity.
  - intros H1 H2. unfold extract_paradex_latest, paradex_items, por.
    rewrite H1. cbv iota. rewrite H1. cbv iota.
    destruct (dict_get d "data") as [| | | | |l'|]; try reflexivity.
    exfalso. apply (H2 l'). reflexivity.
  - intros. repeat split.
Qed.

End Readers.

Lemma parse_ts_readings_witness :
  (exists z, VInt (2 ^ 1024) = VInt z /\ float_of_Z z = None) /\
  _parse_ts rejects_all rejects_all (VInt (2 ^ 1024)) = Raise.
Proof.
  assert (exists z, VInt (2 ^ 1024) = VInt z /\ float_of_Z z = None) as H
    by (exists (2 ^ 1024)%Z; split; [reflexivity|vm_compute; reflexivity]).
  split; [exact H|].
  destruct (parse_ts_readings rejects_all rejects_all (VInt (2 ^ 1024)) "")
    as [Hraise _].
  apply Hraise, H.
Defined.


Lemma extract_paradex_latest_payloads_witness :
  dict_get [("data", VList [stamped 0.01 100]); ("results", VInt 1)] "data" =
    VList [stamped 0.01 100] /\
  extract_paradex_latest rejects_all rejects_all
    (VDict [("data", VList [stamped 0.01 100]); ("results", VInt 1)]) =
  extract_paradex_latest rejects_all rejects_all (VList [stamped 0.01 100]).
Proof.
  split; [reflexivity|].
  destruct (extract_paradex_latest_payloads rejects_all rejects_all
              [("data", VList [stamped 0.01 100]); ("results", VInt 1)]
              (stamped 0.01 100) []) as [Hdata _].
  apply Hdata. reflexivity.
Defined.

(** ** The pivot table *)

Lemma length_append (a b : string) :
  String.length (a ++ b)%string = String.length a + String.length b.
Proof.
  induction a as [|c a IH]; [reflexivity|].
  rewrite append_cons. cbn [String.length]. rewrite IH. reflexivity.
Qed.

Lemma length_repeat_char (c : ascii) (n : nat) :
  String.length (repeat_char c n) = n.
Proof. induction n as [|n IH]; cbn; [reflexivity|]. rewrite IH. reflexivity. Qed.

Lemma length_pad (s : string) (w : nat) :
  String.length (pad s w) = Nat.max (String.length s) w.
Proof. unfold pad. rewrite length_append, length_repeat_char. lia. Qed.

Lemma max_len_head (h : string) (cells : list string) :
  String.length h <= max_len h cells.
Proof.
  unfold max_len. induction cells as [|c r IH]; cbn [foldr]; lia.
Qed.

Lemma max_len_cell (h c : string) (cells : list string) :
  c ∈ cells -> String.length c <= max_len h cells.
Proof.
  unfold max_len. induction cells as [|x r IH]; [inversion 1|].
  intros [->|Hc]%elem_of_cons; cbn [foldr]; [lia|]. specialize (IH Hc). lia.
Qed.

Lemma length_table_row (c1 c2 c3 c4 : nat) (a b c d : string) :
  String.length a <= c1 -> String.length b <= c2 ->
  String.length c <= c3 -> String.length d <= c4 ->
  String.length (table_row c1 c2 c3 c4 a b c d) = c1 + c2 + c3 + c4 + 13.
Proof.
  intros. unfold table_row. rewrite !length_append, !length_pad. cbn. lia.
Qed.

#[local] Instance str_le_total : Total str_le.
Proof. intros a b. apply String.leb_total. Qed.

Lemma sorted_bases_keys (t : table) (b : string) :
  b ∈ sorted_bases t <-> is_Some (t !! b).
Proof.
  unfold sorted_bases. rewrite merge_sort_Permutation.
  rewrite list_elem_of_fmap. split.
  - intros ([k row] & -> & Hin). apply elem_of_map_to_list in Hin. eauto.
  - intros [row Hrow]. exists (b, row). split; [reflexivity|].
    apply elem_of_map_to_list, Hrow.
Qed.

Lemma sorted_bases_length (t : table) : length (sorted_bases t) = size t.
Proof.
  unfold sorted_bases. rewrite merge_sort_Permutation, length_map.
  apply length_map_to_list.
Qed.

Section PivotLayout.

Variable pct : option float -> string.
Variable now : string.

(** X19. [print_pivot] prints a rule, the header, a rule, one row for
    every key of the table in ascending order of the keys, a rule and the
    count line. The header and all the rows have the same width, the sum of
    the four column widths plus 13; the rules are 3 characters shorter. *)
Theorem print_pivot_layout (by_base : table) :
  exists (w : nat) (rule header footer : string) (rows : list string),
    print_pivot pct now by_base =
      [rule; header; rule] ++ rows ++ [rule; footer] /\
    String.length rule = w + 10 /\
    String.length header = w + 13 /\
    Forall (fun row => String.length row = w + 13) rows /\
    length rows = size by_base /\
    Forall2 (fun b row => String.prefix ("| " ++ b) row = true)
      (sorted_bases by_base) rows /\
    Sorted str_le (sorted_bases by_base) /\
    NoDup (sorted_bases by_base) /\
    (forall b, b ∈ sorted_bases by_base <-> is_Some (by_base !! b)).
Proof.
  unfold print_pivot. cbn zeta.
  set (bases := sorted_bases by_base).
  set (c1 := max_len "Activo" bases).
  set (c2 := max_len "Hyperliquid/hr" (map (cell pct by_base "Hyperliquid") bases)).
  set (c3 := max_len "Lighter/hr" (map (cell pct by_base "Lighter") bases)).
  set (c4 := max_len "Paradex/hr" (map (cell pct by_base "Paradex") bases)).
  exists (c1 + c2 + c3 + c4). eexists _, _, _, _.
  split; [reflexivity|].
  split; [apply length_repeat_char|].
  split; [apply length_table_row; apply max_len_head|].
  assert (forall b, b ∈ bases ->
            String.length b <= c1 /\
            String.length (cell pct by_base "Hyperliquid" b) <= c2 /\
            String.length (cell pct by_base "Lighter" b) <= c3 /\
            String.length (cell pct by_base "Paradex" b) <= c4) as Hfit.
  { intros b Hb. repeat split; apply max_len_cell;
      [exact Hb|apply (list_elem_of_fmap_2 _ _ _ Hb)..]. }
  split.
  { apply Forall_map, list.Forall_forall. intros b Hb.
    destruct (Hfit b Hb) as (? & ? & ? & ?).
    apply length_table_row; assumption. }
  split; [rewrite length_map; apply sorted_bases_length|].
  split.
  { apply Forall2_fmap_r, Forall_Forall2_diag, list.Forall_forall.
    intros b Hb. destruct (Hfit b Hb) as (H1 & _).
    apply prefix_app. unfold table_row, pad. eexists.
    rewrite !append_assoc. reflexivity. }
  split; [apply Sorted_merge_sort, _|].
  split.
  { unfold bases, sorted_bases. rewrite merge_sort_Permutation.
    apply NoDup_fst_map_to_list. }
  apply sorted_bases_keys.
Qed.

End PivotLayout.
